(** * SPECTRE: a shallow embedding of the multi-fork EVM core

    This development embeds the Python EVM of the repository
    ([ethereum/common/types.py], [ethereum/frontier/vm/*.py],
    [ethereum/{frontier,homestead,shanghai}/fork.py] and the fork
    interpreters) and settles the claims of the specification on it.

    Conventions of the embedding:
    - a Python [int] is a [Z]; the 256-bit wrap-around is written out with
      [u256]; a [bytes] value is a list of 8-bit [Z];
    - a [dict] is a [gmap], a [set] a [gset];
    - the mutable objects threaded through the interpreter (the operand
      stack, the memory, the log list, the shared [State] and the
      interpreter's [return_data] attribute) are the fields of one record
      passed through a state-and-exception monad;
    - a Python exception is a value of [exn]; the exceptions that
      [Interpreter.execute] does not catch surface as [PyError];
    - the [while] loop of [execute] and the recursion through nested calls
      are driven by a fuel counter; the limits of the host (Python's
      recursion limit, the memory of the machine) are not modelled. *)

From Stdlib Require Import ZArith List Bool String Lia.
From stdpp Require Import base gmap.

Import ListNotations.
Local Open Scope Z_scope.

(** ** Bytes and integers *)

Abbreviation bytes := (list Z).

Definition len {A} (l : list A) : Z := Z.of_nat (length l).

(** [data[i]] for an index known to be in range. *)
Definition byte_at (data : bytes) (i : Z) : Z := nth (Z.to_nat i) data 0.

(** [data[a:b]] for [0 <= a]. *)
Definition slice {A} (data : list A) (a b : Z) : list A :=
  firstn (Z.to_nat (b - a)) (skipn (Z.to_nat a) data).

(** [b"\x00" * n] *)
Definition zeros (n : Z) : bytes := repeat 0 (Z.to_nat n).

(** [int.from_bytes(data, "big")] *)
Definition from_bytes_big (data : bytes) : Z :=
  fold_left (fun acc b => acc * 256 + b) data 0.

Fixpoint to_bytes_big_aux (n : nat) (value : Z) (acc : bytes) : bytes :=
  match n with
  | O => acc
  | S n' => to_bytes_big_aux n' (value / 256) (value mod 256 :: acc)
  end.

(** [value.to_bytes(n, "big")]: [None] stands for Python's
    [OverflowError] (negative value, or value too big for [n] bytes). *)
Definition to_bytes_big (n : Z) (value : Z) : option bytes :=
  if (value <? 0) || (256 ^ n <=? value) then None
  else Some (to_bytes_big_aux (Z.to_nat n) value []).

(** [value.bit_length()] for a non-negative value. *)
Definition bit_length (value : Z) : Z :=
  if value =? 0 then 0 else Z.log2 value + 1.

(** ** [ethereum/common/types.py]: words *)

Definition MAX_U256 : Z := 2 ^ 256 - 1.

Definition u256 (value : Z) : Z := Z.land value MAX_U256.

Definition signed_to_unsigned (value : Z) : Z :=
  if 0 <=? value then value else value + 2 ^ 256.

Definition unsigned_to_signed (value : Z) : Z :=
  if value <? 2 ^ 255 then value else value - 2 ^ 256.

(** ** The hash primitive: [hashlib.sha3_256]

    The source calls the Python standard library's [hashlib.sha3_256],
    which is the SHA3-256 of FIPS 202: the Keccak-f[1600] sponge with rate
    136 bytes and domain-separation suffix [0x06].  The original Keccak-256
    (the Ethereum hash) is the same sponge with suffix [0x01].  Both are
    defined here from the one permutation. *)

Module Keccak.

Definition mask64 : Z := 2 ^ 64 - 1.

Definition rol64 (a n : Z) : Z :=
  if n =? 0 then a
  else Z.land (Z.lor (Z.shiftl a n) (Z.shiftr a (64 - n))) mask64.

(** A state is 25 lanes, lane (x, y) at index [x + 5 * y]. *)
Definition lane (st : list Z) (x y : Z) : Z :=
  nth (Z.to_nat ((x mod 5) + 5 * (y mod 5))) st 0.

Definition coords : list (Z * Z) :=
  flat_map (fun y => map (fun x => (x, y)) [0; 1; 2; 3; 4]) [0; 1; 2; 3; 4].

Definition build (f : Z -> Z -> Z) : list Z :=
  map (fun xy => f (fst xy) (snd xy)) coords.

Definition rotation_offsets : list Z :=
  [ 0;  1; 62; 28; 27;
   36; 44;  6; 55; 20;
    3; 10; 43; 25; 39;
   41; 45; 15; 21;  8;
   18;  2; 61; 56; 14].

Definition round_constants : list Z :=
  [0x0000000000000001; 0x0000000000008082; 0x800000000000808A;
   0x8000000080008000; 0x000000000000808B; 0x0000000080000001;
   0x8000000080008081; 0x8000000000008009; 0x000000000000008A;
   0x0000000000000088; 0x0000000080008009; 0x000000008000000A;
   0x000000008000808B; 0x800000000000008B; 0x8000000000008089;
   0x8000000000008003; 0x8000000000008002; 0x8000000000000080;
   0x000000000000800A; 0x800000008000000A; 0x8000000080008081;
   0x8000000000008080; 0x0000000080000001; 0x8000000080008008].

Definition theta (st : list Z) : list Z :=
  let c x := fold_left Z.lxor (map (fun y => lane st x y) [1; 2; 3; 4]) (lane st x 0) in
  let d x := Z.lxor (c (x + 4)) (rol64 (c (x + 1)) 1) in
  build (fun x y => Z.lxor (lane st x y) (d x)).

(** rho and pi together: B[y, 2x+3y] = rol(A[x, y], r[x, y]); read
    backwards, B[X, Y] comes from x = X + 3Y, y = X. *)
Definition rho_pi (st : list Z) : list Z :=
  build (fun X Y =>
    let x := (X + 3 * Y) mod 5 in
    let y := X in
    rol64 (lane st x y) (nth (Z.to_nat (x + 5 * y)) rotation_offsets 0)).

Definition chi (st : list Z) : list Z :=
  build (fun x y =>
    Z.lxor (lane st x y)
           (Z.land (Z.lxor (lane st (x + 1) y) mask64) (lane st (x + 2) y))).

Definition iota (rc : Z) (st : list Z) : list Z :=
  match st with
  | a :: rest => Z.lxor a rc :: rest
  | [] => []
  end.

Definition round (st : list Z) (rc : Z) : list Z :=
  iota rc (chi (rho_pi (theta st))).

Definition keccak_f (st : list Z) : list Z :=
  fold_left round round_constants st.

Definition rate : Z := 136.

(** Little-endian lane <-> 8 bytes. *)
Definition lane_of_bytes (bs : bytes) : Z :=
  fold_right (fun b acc => b + 256 * acc) 0 bs.

Fixpoint bytes_of_lane (n : nat) (v : Z) : bytes :=
  match n with
  | O => []
  | S n' => v mod 256 :: bytes_of_lane n' (v / 256)
  end.

Fixpoint lanes_of_block (n : nat) (block : bytes) : list Z :=
  match n with
  | O => []
  | S n' => lane_of_bytes (firstn 8 block) :: lanes_of_block n' (skipn 8 block)
  end.

Fixpoint xor_lanes (st blk : list Z) : list Z :=
  match st, blk with
  | a :: st', b :: blk' => Z.lxor a b :: xor_lanes st' blk'
  | _, [] => st
  | [], _ => []
  end.

(** pad10*1 with the domain suffix folded into the first padding byte. *)
Definition pad (suffix : Z) (msg : bytes) : bytes :=
  let r := Z.to_nat rate in
  let q := (r - (length msg mod r))%nat in
  if (q =? 1)%nat then msg ++ [Z.lor suffix 0x80]
  else msg ++ [suffix] ++ repeat 0 (q - 2) ++ [0x80].

Fixpoint absorb (nblocks : nat) (data : bytes) (st : list Z) : list Z :=
  match nblocks with
  | O => st
  | S n' =>
      let blk := firstn (Z.to_nat rate) data in
      absorb n' (skipn (Z.to_nat rate) data)
             (keccak_f (xor_lanes st (lanes_of_block 17 blk)))
  end.

Definition sponge256 (suffix : Z) (msg : bytes) : bytes :=
  let padded := pad suffix msg in
  let st := absorb (length padded / Z.to_nat rate) padded (repeat 0 25%nat) in
  flat_map (bytes_of_lane 8) (firstn 4 st).

(** FIPS-202 SHA3-256. *)
Definition sha3_256 (msg : bytes) : bytes := sponge256 0x06 msg.

(** Original (pre-FIPS-202) Keccak-256. *)
Definition keccak256 (msg : bytes) : bytes := sponge256 0x01 msg.

End Keccak.

(** [hashlib.sha3_256(data).digest()] *)
Definition hashlib_sha3_256 (data : bytes) : bytes := Keccak.sha3_256 data.

(** ** [ethereum/common/types.py]: accounts and the world state *)

Abbreviation Address := (list Z).

Definition ZERO_ADDRESS : Address := zeros 20.

Record Account := mkAccount {
  nonce : Z;
  balance : Z;
  code : bytes;
  storage : gmap Z Z
}.

(** [Account()] *)
Definition empty_account : Account :=
  {| nonce := 0; balance := 0; code := []; storage := ∅ |}.

Record State := mkState { accounts : gmap (list Z) Account }.

Definition empty_state : State := {| accounts := ∅ |}.

Definition get_account (s : State) (address : Address) : Account :=
  default empty_account (accounts s !! address).

Definition set_account (s : State) (address : Address) (account : Account) : State :=
  {| accounts := <[address := account]> (accounts s) |}.

Definition get_balance (s : State) (address : Address) : Z :=
  balance (get_account s address).

(** [account.copy_with(balance=balance)] and its siblings rebuild the
    account with one field replaced. *)
Definition set_balance (s : State) (address : Address) (b : Z) : State :=
  let account := get_account s address in
  set_account s address
    {| nonce := nonce account; balance := b; code := code account;
       storage := storage account |}.

Definition get_code (s : State) (address : Address) : bytes :=
  code (get_account s address).

Definition set_code (s : State) (address : Address) (c : bytes) : State :=
  let account := get_account s address in
  set_account s address
    {| nonce := nonce account; balance := balance account; code := c;
       storage := storage account |}.

Definition get_storage (s : State) (address : Address) (key : Z) : Z :=
  default 0 (storage (get_account s address) !! key).

Definition set_storage (s : State) (address : Address) (key value : Z) : State :=
  let account := get_account s address in
  let new_storage :=
    if value =? 0 then delete key (storage account)
    else <[key := value]> (storage account) in
  set_account s address
    {| nonce := nonce account; balance := balance account; code := code account;
       storage := new_storage |}.

Definition increment_nonce (s : State) (address : Address) : State :=
  let account := get_account s address in
  set_account s address
    {| nonce := nonce account + 1; balance := balance account;
       code := code account; storage := storage account |}.

(** [State.copy]: a deep copy of an immutable value is the value. *)
Definition copy (s : State) : State := s.

Definition is_empty {A} (l : list A) : bool :=
  match l with [] => true | _ => false end.

Definition account_exists (s : State) (address : Address) : bool :=
  match accounts s !! address with
  | None => false
  | Some account =>
      negb (nonce account =? 0) || negb (balance account =? 0)
      || negb (is_empty (code account))
  end.

(** ** Transactions, environments, messages, results *)

Record Transaction := mkTransaction {
  tx_sender : Address;
  tx_to : option bytes;
  tx_value : Z;
  tx_data : bytes;
  tx_gas : Z;
  tx_gas_price : Z;
  tx_nonce : Z
}.

Record Environment := mkEnvironment {
  env_caller : Address;
  env_origin : Address;
  env_block_hashes : gmap Z bytes;
  env_coinbase : Address;
  env_number : Z;
  env_gas_limit : Z;
  env_gas_price : Z;
  env_timestamp : Z;
  env_difficulty : Z;
  env_chain_id : Z;
  env_base_fee : Z
}.

Record Log := mkLog {
  log_address : Address;
  log_topics : list bytes;
  log_data : bytes
}.

Record Message := mkMessage {
  msg_caller : Address;
  msg_target : Address;
  msg_value : Z;
  msg_data : bytes;
  msg_gas : Z;
  msg_depth : Z;
  msg_code : bytes;
  msg_code_address : Address;
  msg_is_static : bool;
  msg_is_create : bool
}.

(** The three forks; [fork_name] is the class attribute of the
    interpreter classes. *)
Inductive Fork := Frontier | Homestead | Shanghai.

Definition fork_name (f : Fork) : string :=
  match f with
  | Frontier => "Frontier"
  | Homestead => "Homestead"
  | Shanghai => "Shanghai"
  end.

(** Python exceptions.  The first seven are the ones [execute] catches;
    the payload is what the source formats into the message.  [PyError]
    stands for every exception [execute] lets through ([OverflowError] of
    [int.to_bytes], [UnboundLocalError], pydantic's [ValidationError]). *)
Inductive exn :=
| StackOverflowError
| StackUnderflowError
| OutOfGasError
| InvalidOpcodeError (reason : string)
| UnknownOpcodeError (opcode : Z)
| InvalidJumpError (dest : Z)
| WriteProtectionError (reason : string)
| EVMError (reason : string)
| PyError (name : string).

(** The [error] field of an [ExecutionResult]: the string the source
    builds, kept as the data it is built from. *)
Inductive error :=
| CallDepthExceeded
| Raised (e : exn)
| InvalidNonce (expected got : Z)
| IntrinsicGasTooLow (gas intrinsic : Z)
| InsufficientBalance (have required : Z)
| InitcodeTooLarge (size : Z)
| DeploymentOutOfGas
| CodeSizeLimitExceeded.

Record ExecutionResult := mkResult {
  r_success : bool;
  r_gas_used : Z;
  r_gas_remaining : Z;
  r_return_data : bytes;
  r_logs : list Log;
  r_error : option error;
  r_created_address : option Address
}.

(** ** [create_address] and [create2_address] *)

(** [v.to_bytes((v.bit_length() + 7) // 8, "big")] *)
Definition min_bytes_big (v : Z) : bytes :=
  to_bytes_big_aux (Z.to_nat ((bit_length v + 7) / 8)) v [].

Definition rlp_encode_bytes (data : bytes) : bytes :=
  if (len data =? 1) && (byte_at data 0 <? 0x80) then data
  else if len data <? 56 then (0x80 + len data) :: data
  else
    let len_bytes := min_bytes_big (len data) in
    (0xB7 + len len_bytes) :: len_bytes ++ data.

(** [bytes([value])] raises [ValueError] for a value outside
    [range(0, 256)]: on this branch [value < 0x80], so for the negative
    ones. *)
Definition rlp_encode_int (value : Z) : exn + bytes :=
  if value =? 0 then inr [0x80]
  else if value <? 0x80 then
    if value <? 0 then inl (PyError "ValueError") else inr [value]
  else inr (rlp_encode_bytes (min_bytes_big value)).

(** [create_address]: the exception of [rlp_encode_int], raised on a
    negative nonce, leaves the function. *)
Definition create_address (sender : Address) (n : Z) : exn + Address :=
  let sender_encoded := rlp_encode_bytes sender in
  match rlp_encode_int n with
  | inl e => inl e
  | inr nonce_encoded =>
      let content := sender_encoded ++ nonce_encoded in
      let rlp :=
        if len content <? 56 then (0xC0 + len content) :: content
        else
          let len_bytes := min_bytes_big (len content) in
          (0xF7 + len len_bytes) :: len_bytes ++ content in
      inr (skipn 12 (hashlib_sha3_256 rlp))
  end.

Definition create2_address (sender : Address) (salt init_code_hash : bytes) : Address :=
  let data := [0xFF] ++ sender ++ salt ++ init_code_hash in
  skipn 12 (hashlib_sha3_256 data).

(** ** [ethereum/frontier/vm/gas.py] *)

(** The class attributes of [GasSchedule]; a fork's schedule is a value
    of this record ([self.gas_schedule]). *)
Record GasSchedule := mkGasSchedule {
  G_ZERO : Z; G_BASE : Z; G_VERYLOW : Z; G_LOW : Z; G_MID : Z; G_HIGH : Z;
  G_MEMORY : Z; G_COPY : Z;
  G_SLOAD : Z; G_SSET : Z; G_SRESET : Z; G_SCLEAR : Z;
  G_CREATE : Z; G_CODEDEPOSIT : Z; G_CALL : Z; G_CALLVALUE : Z;
  G_CALLSTIPEND : Z; G_NEWACCOUNT : Z;
  G_JUMPDEST : Z; G_EXP : Z; G_EXPBYTE : Z; G_SHA3 : Z; G_SHA3WORD : Z;
  G_BALANCE : Z; G_EXTCODESIZE : Z; G_EXTCODECOPY : Z; G_BLOCKHASH : Z;
  G_LOG : Z; G_LOGDATA : Z; G_LOGTOPIC : Z; G_SELFDESTRUCT : Z;
  G_TRANSACTION : Z; G_TXCREATE : Z; G_TXDATAZERO : Z; G_TXDATANONZERO : Z
}.

Definition FrontierGasSchedule : GasSchedule :=
  {| G_ZERO := 0; G_BASE := 2; G_VERYLOW := 3; G_LOW := 5; G_MID := 8;
     G_HIGH := 10; G_MEMORY := 3; G_COPY := 3;
     G_SLOAD := 50; G_SSET := 20000; G_SRESET := 5000; G_SCLEAR := 5000;
     G_CREATE := 32000; G_CODEDEPOSIT := 200; G_CALL := 40;
     G_CALLVALUE := 9000; G_CALLSTIPEND := 2300; G_NEWACCOUNT := 25000;
     G_JUMPDEST := 1; G_EXP := 10; G_EXPBYTE := 10; G_SHA3 := 30;
     G_SHA3WORD := 6; G_BALANCE := 20; G_EXTCODESIZE := 20;
     G_EXTCODECOPY := 20; G_BLOCKHASH := 20; G_LOG := 375; G_LOGDATA := 8;
     G_LOGTOPIC := 375; G_SELFDESTRUCT := 0;
     G_TRANSACTION := 21000; G_TXCREATE := 53000; G_TXDATAZERO := 4;
     G_TXDATANONZERO := 68 |}.

(** [HomesteadGasSchedule] overrides [G_CREATE] with the same value and
    adds [G_CREATE_MIN_CALLEE_GAS], which nothing reads. *)
Definition HomesteadGasSchedule : GasSchedule := FrontierGasSchedule.

(** [ShanghaiGasSchedule] adds [G_PUSH0] to the inherited attributes. *)
Definition ShanghaiGasSchedule : GasSchedule := FrontierGasSchedule.
Definition G_PUSH0 : Z := 2.

Definition gas_schedule_of (f : Fork) : GasSchedule :=
  match f with
  | Frontier => FrontierGasSchedule
  | Homestead => HomesteadGasSchedule
  | Shanghai => ShanghaiGasSchedule
  end.

Section GasFormulas.
Variable gs : GasSchedule.

Definition memory_expansion_cost (current_words new_words : Z) : Z :=
  if new_words <=? current_words then 0
  else
    let cost words := G_MEMORY gs * words + (words * words) / 512 in
    cost new_words - cost current_words.

Definition copy_cost (size : Z) : Z :=
  let words := (size + 31) / 32 in
  G_COPY gs * words.

Definition sha3_cost (size : Z) : Z :=
  let words := (size + 31) / 32 in
  G_SHA3 gs + G_SHA3WORD gs * words.

Definition exp_cost (exponent : Z) : Z :=
  if exponent =? 0 then G_EXP gs
  else
    let byte_length := (bit_length exponent + 7) / 8 in
    G_EXP gs + G_EXPBYTE gs * byte_length.

Definition log_cost (data_size num_topics : Z) : Z :=
  G_LOG gs + G_LOGDATA gs * data_size + G_LOGTOPIC gs * num_topics.

Definition call_cost (value : Z) (target_exists : bool) : Z :=
  let cost := G_CALL gs in
  if 0 <? value then
    let cost := cost + G_CALLVALUE gs in
    if negb target_exists then cost + G_NEWACCOUNT gs else cost
  else cost.

Definition sstore_cost (current_value new_value : Z) : Z :=
  if (current_value =? 0) && negb (new_value =? 0) then G_SSET gs
  else G_SRESET gs.

Definition sstore_refund (current_value new_value : Z) : Z :=
  if negb (current_value =? 0) && (new_value =? 0) then G_SCLEAR gs
  else 0.

Definition transaction_intrinsic_gas (data : bytes) (is_create : bool) : Z :=
  let gas := if is_create then G_TXCREATE gs else G_TRANSACTION gs in
  fold_left
    (fun gas byte =>
       if byte =? 0 then gas + G_TXDATAZERO gs else gas + G_TXDATANONZERO gs)
    data gas.
End GasFormulas.

(** ** The interpreter's mutable objects and its monad *)

(** The objects the interpreter mutates in place: the frame's [Stack]
    (top of the stack first), [Memory] and [logs] list, and the two
    attributes of the [Interpreter] object shared by every frame,
    [self.state] and [self.return_data]. *)
Record Machine := mkMachine {
  mc_stack : list Z;
  mc_memory : bytes;
  mc_logs : list Log;
  mc_state : State;
  mc_return_data : bytes
}.

(** A computation either returns or raises; mutations done before a
    [raise] stay in the machine, as in Python.  [None] is not a Python
    behaviour: it says that the fuel given to the model ran out. *)
Definition M (A : Type) : Type := Machine -> option ((exn + A) * Machine).

Definition ret {A} (a : A) : M A := fun m => Some (inr a, m).
Definition raise {A} (e : exn) : M A := fun m => Some (inl e, m).
Definition out_of_fuel {A} : M A := fun _ => None.
Definition bind {A B} (c : M A) (k : A -> M B) : M B :=
  fun m =>
    match c m with
    | None => None
    | Some (inl e, m') => Some (inl e, m')
    | Some (inr a, m') => k a m'
    end.

Notation "'let*' x ':=' c 'in' k" := (bind c (fun x => k))
  (at level 10, x name, c at level 100, k at level 200).
Notation "c ';;' k" := (bind c (fun _ => k))
  (at level 100, k at level 200, right associativity).

Definition read {A} (f : Machine -> A) : M A := fun m => Some (inr (f m), m).
Definition set_stack (s : list Z) : M unit :=
  fun m => Some (inr tt, {| mc_stack := s; mc_memory := mc_memory m; mc_logs := mc_logs m;
                       mc_state := mc_state m; mc_return_data := mc_return_data m |}).
Definition set_memory (d : bytes) : M unit :=
  fun m => Some (inr tt, {| mc_stack := mc_stack m; mc_memory := d; mc_logs := mc_logs m;
                       mc_state := mc_state m; mc_return_data := mc_return_data m |}).
Definition set_logs (l : list Log) : M unit :=
  fun m => Some (inr tt, {| mc_stack := mc_stack m; mc_memory := mc_memory m; mc_logs := l;
                       mc_state := mc_state m; mc_return_data := mc_return_data m |}).
Definition set_state (s : State) : M unit :=
  fun m => Some (inr tt, {| mc_stack := mc_stack m; mc_memory := mc_memory m; mc_logs := mc_logs m;
                       mc_state := s; mc_return_data := mc_return_data m |}).
Definition set_return_data (d : bytes) : M unit :=
  fun m => Some (inr tt, {| mc_stack := mc_stack m; mc_memory := mc_memory m; mc_logs := mc_logs m;
                       mc_state := mc_state m; mc_return_data := d |}).
(** [self.state.f(...)] for a mutator [f]. *)
Definition update_state (f : State -> State) : M unit :=
  fun m => set_state (f (mc_state m)) m.

(** ** [ethereum/frontier/vm/stack.py] *)

Definition MAX_DEPTH : Z := 1024.

Definition push (value : Z) : M unit :=
  let* s := read mc_stack in
  if MAX_DEPTH <=? len s then raise StackOverflowError
  else set_stack (u256 value :: s).

Definition pop : M Z :=
  let* s := read mc_stack in
  match s with
  | [] => raise StackUnderflowError
  | v :: s' => set_stack s' ;; ret v
  end.

Definition dup (n : Z) : M unit :=
  if (n <? 1) || (16 <? n) then raise (PyError "ValueError")
  else
    let* s := read mc_stack in
    if len s <? n then raise StackUnderflowError
    else if MAX_DEPTH <=? len s then raise StackOverflowError
    else set_stack (nth (Z.to_nat (n - 1)) s 0 :: s).

Definition swap (n : Z) : M unit :=
  if (n <? 1) || (16 <? n) then raise (PyError "ValueError")
  else
    let* s := read mc_stack in
    if len s <? n + 1 then raise StackUnderflowError
    else
      match s with
      | [] => raise StackUnderflowError
      | top :: rest =>
          let k := Z.to_nat (n - 1) in
          set_stack (nth k rest 0 :: firstn k rest ++ top :: skipn (S k) rest)
      end.

(** ** [ethereum/frontier/vm/memory.py] *)

Definition word_size (size : Z) : Z := (size + 31) / 32.

(** [Memory._expand] on the underlying [bytearray]. *)
Definition expand (data : bytes) (offset size : Z) : bytes :=
  if size =? 0 then data
  else
    let end_ := offset + size in
    let current_words := word_size (len data) in
    let required_words := word_size end_ in
    if current_words <? required_words then
      let new_size := required_words * 32 in
      data ++ zeros (new_size - len data)
    else data.

Definition expansion_cost_of (data : bytes) (offset size : Z) : Z :=
  if size =? 0 then 0
  else
    let end_ := offset + size in
    let current_words := word_size (len data) in
    let required_words := word_size end_ in
    if required_words <=? current_words then 0
    else
      let memory_cost words := 3 * words + (words * words) / 512 in
      memory_cost required_words - memory_cost current_words.

Definition expansion_cost (offset size : Z) : M Z :=
  let* d := read mc_memory in ret (expansion_cost_of d offset size).

Definition mem_load (offset size : Z) : M bytes :=
  if size =? 0 then ret []
  else
    let* d := read mc_memory in
    let d' := expand d offset size in
    set_memory d' ;;
    ret (slice d' offset (offset + size)).

Definition load_word (offset : Z) : M Z :=
  let* data := mem_load offset 32 in ret (from_bytes_big data).

(** [self._data[a:a+len(new)] = new] on a buffer that reaches [a+len(new)]. *)
Definition splice (d : bytes) (a : Z) (new : bytes) : bytes :=
  firstn (Z.to_nat a) d ++ new ++ skipn (Z.to_nat (a + len new)) d.

Definition mem_store (offset : Z) (data : bytes) : M unit :=
  if is_empty data then ret tt
  else
    let* d := read mc_memory in
    set_memory (splice (expand d offset (len data)) offset data).

Definition store_word (offset value : Z) : M unit :=
  mem_store offset
    (to_bytes_big_aux 32 (Z.land value (Z.shiftl 1 256 - 1)) []).

Definition store_byte (offset value : Z) : M unit :=
  let* d := read mc_memory in
  set_memory (splice (expand d offset 1) offset [Z.land value 0xFF]).

Definition msize : M Z := let* d := read mc_memory in ret (len d).

(** ** [ethereum/frontier/vm/interpreter.py] *)

Module Opcode.
Definition STOP : Z := 0x00.
Definition ADD : Z := 0x01.
Definition MUL : Z := 0x02.
Definition SUB : Z := 0x03.
Definition DIV : Z := 0x04.
Definition SDIV : Z := 0x05.
Definition MOD : Z := 0x06.
Definition SMOD : Z := 0x07.
Definition ADDMOD : Z := 0x08.
Definition MULMOD : Z := 0x09.
Definition EXP : Z := 0x0A.
Definition SIGNEXTEND : Z := 0x0B.
Definition LT : Z := 0x10.
Definition GT : Z := 0x11.
Definition SLT : Z := 0x12.
Definition SGT : Z := 0x13.
Definition EQ : Z := 0x14.
Definition ISZERO : Z := 0x15.
Definition AND : Z := 0x16.
Definition OR : Z := 0x17.
Definition XOR : Z := 0x18.
Definition NOT : Z := 0x19.
Definition BYTE : Z := 0x1A.
Definition SHL : Z := 0x1B.
Definition SHR : Z := 0x1C.
Definition SAR : Z := 0x1D.
Definition SHA3 : Z := 0x20.
Definition ADDRESS : Z := 0x30.
Definition BALANCE : Z := 0x31.
Definition ORIGIN : Z := 0x32.
Definition CALLER : Z := 0x33.
Definition CALLVALUE : Z := 0x34.
Definition CALLDATALOAD : Z := 0x35.
Definition CALLDATASIZE : Z := 0x36.
Definition CALLDATACOPY : Z := 0x37.
Definition CODESIZE : Z := 0x38.
Definition CODECOPY : Z := 0x39.
Definition GASPRICE : Z := 0x3A.
Definition EXTCODESIZE : Z := 0x3B.
Definition EXTCODECOPY : Z := 0x3C.
Definition RETURNDATASIZE : Z := 0x3D.
Definition RETURNDATACOPY : Z := 0x3E.
Definition EXTCODEHASH : Z := 0x3F.
Definition BLOCKHASH : Z := 0x40.
Definition COINBASE : Z := 0x41.
Definition TIMESTAMP : Z := 0x42.
Definition NUMBER : Z := 0x43.
Definition DIFFICULTY : Z := 0x44.
Definition GASLIMIT : Z := 0x45.
Definition CHAINID : Z := 0x46.
Definition SELFBALANCE : Z := 0x47.
Definition BASEFEE : Z := 0x48.
Definition POP : Z := 0x50.
Definition MLOAD : Z := 0x51.
Definition MSTORE : Z := 0x52.
Definition MSTORE8 : Z := 0x53.
Definition SLOAD : Z := 0x54.
Definition SSTORE : Z := 0x55.
Definition JUMP : Z := 0x56.
Definition JUMPI : Z := 0x57.
Definition PC : Z := 0x58.
Definition MSIZE : Z := 0x59.
Definition GAS : Z := 0x5A.
Definition JUMPDEST : Z := 0x5B.
Definition PUSH0 : Z := 0x5F.
Definition PUSH1 : Z := 0x60.
Definition PUSH32 : Z := 0x7F.
Definition DUP1 : Z := 0x80.
Definition DUP16 : Z := 0x8F.
Definition SWAP1 : Z := 0x90.
Definition SWAP16 : Z := 0x9F.
Definition LOG0 : Z := 0xA0.
Definition LOG4 : Z := 0xA4.
Definition CREATE : Z := 0xF0.
Definition CALL : Z := 0xF1.
Definition CALLCODE : Z := 0xF2.
Definition RETURN : Z := 0xF3.
Definition DELEGATECALL : Z := 0xF4.
Definition CREATE2 : Z := 0xF5.
Definition STATICCALL : Z := 0xFA.
Definition REVERT : Z := 0xFD.
Definition INVALID : Z := 0xFE.
Definition SELFDESTRUCT : Z := 0xFF.
End Opcode.

Definition MAX_CALL_DEPTH : Z := 1024.

(** [_OpcodeResult]; its [error] and [created_address] are never set by
    the source and keep their default [None]. *)
Record OpcodeResult := mkOpcodeResult {
  or_pc : Z;
  or_gas_remaining : Z;
  or_done : bool;
  or_success : bool;
  or_return_data : bytes;
  or_error : option error;
  or_created_address : option Address
}.

(** [_OpcodeResult(pc=pc, gas_remaining=gas_remaining)] *)
Definition continue_at (pc gas_remaining : Z) : M OpcodeResult :=
  ret {| or_pc := pc; or_gas_remaining := gas_remaining; or_done := false;
         or_success := true; or_return_data := []; or_error := None;
         or_created_address := None |}.

(** [_OpcodeResult(done=True, success=..., gas_remaining=..., return_data=...)] *)
Definition finish (ok : bool) (gas_remaining : Z) (data : bytes) : M OpcodeResult :=
  ret {| or_pc := 0; or_gas_remaining := gas_remaining; or_done := true;
         or_success := ok; or_return_data := data; or_error := None;
         or_created_address := None |}.

Definition _charge_gas (gas_remaining cost : Z) : M Z :=
  if gas_remaining <? cost then raise OutOfGasError
  else ret (gas_remaining - cost).

(** [addr.to_bytes(20, "big")]: an [OverflowError] above 160 bits. *)
Definition address_of_word (addr : Z) : M Address :=
  match to_bytes_big 20 addr with
  | Some a => ret a
  | None => raise (PyError "OverflowError")
  end.

(** A call of a function that may raise. *)
Definition lift {A} (r : exn + A) : M A :=
  match r with inl e => raise e | inr a => ret a end.

(** [range(n)] *)
Definition range (n : Z) : list Z := map Z.of_nat (seq 0 (Z.to_nat n)).

(** The zero-padded copy loops of CALLDATACOPY, CODECOPY and EXTCODECOPY:
    [copy_data = bytearray(size)] filled from [src[src_offset + i]]. *)
Definition copy_padded (src : bytes) (src_offset size : Z) : bytes :=
  map (fun i => if src_offset + i <? len src then byte_at src (src_offset + i) else 0)
      (range size).

Fixpoint pow_mod_pos (a : Z) (p : positive) (m : Z) : Z :=
  match p with
  | xH => a mod m
  | xO p' => let r := pow_mod_pos a p' m in (r * r) mod m
  | xI p' => let r := pow_mod_pos a p' m in ((r * r) mod m * a) mod m
  end.

(** [pow(a, b, m)] for [b >= 0]. *)
Definition pow_mod (a b m : Z) : Z :=
  match b with
  | Zpos p => pow_mod_pos a p m
  | _ => 1 mod m
  end.

Fixpoint find_jumpdests_from (fuel : nat) (code : bytes) (i : Z) (jumpdests : gset Z)
  : gset Z :=
  match fuel with
  | O => jumpdests
  | S fuel' =>
      if i <? len code then
        let opcode := byte_at code i in
        let jumpdests :=
          if opcode =? Opcode.JUMPDEST then {[ i ]} ∪ jumpdests else jumpdests in
        let i :=
          if (Opcode.PUSH1 <=? opcode) && (opcode <=? Opcode.PUSH32)
          then i + (opcode - Opcode.PUSH1 + 1) else i in
        find_jumpdests_from fuel' code (i + 1) jumpdests
      else jumpdests
  end.

(** [_find_jumpdests]: the index grows at every turn of the loop, so
    [len(code)] turns are enough. *)
Definition _find_jumpdests (code : bytes) : gset Z :=
  find_jumpdests_from (length code) code 0 ∅.

Inductive CallType := CT_CALL | CT_CALLCODE | CT_DELEGATECALL | CT_STATICCALL.

Definition is_call (ct : CallType) : bool :=
  match ct with CT_CALL => true | _ => false end.

(** What [_handle_call] has computed when it reaches
    [self.execute(call_message)]. *)
Record CallPlan := mkCallPlan {
  cp_message : Message;
  cp_gas_remaining : Z;   (* the caller's gas after [gas_remaining -= gas_to_forward] *)
  cp_ret_offset : Z;
  cp_ret_size : Z
}.

(** The two ways [_handle_call] gets past its checks: the early return
    of a CALL whose value exceeds the caller's balance (with the gas left
    after the call cost), or the nested [execute]. *)
Inductive Prepared :=
| Rejected (gas_remaining : Z)
| Invoke (plan : CallPlan).

Section Interpreter.
(** [self.execute], [self.gas_schedule] and [self.env]. *)
Variable execute : Message -> M ExecutionResult.
Variable gs : GasSchedule.
Variable env : Environment.

(** [_handle_call] up to the nested [execute]. *)
Definition call_prepare (message : Message) (gas_remaining : Z) (call_type : CallType)
  : M Prepared :=
  let* gas := pop in
  let* addr := pop in
  let* value :=
    match call_type with
    | CT_CALL | CT_CALLCODE => pop
    | CT_DELEGATECALL => ret (msg_value message)
    | CT_STATICCALL => ret 0
    end in
  let* args_offset := pop in
  let* args_size := pop in
  let* ret_offset := pop in
  let* ret_size := pop in
  let* address := address_of_word addr in
  let* mem_cost_in := expansion_cost args_offset args_size in
  let* mem_cost_out := expansion_cost ret_offset ret_size in
  let mem_cost := Z.max mem_cost_in mem_cost_out in
  let* st := read mc_state in
  let target_exists := account_exists st address in
  let total_cost := call_cost gs value target_exists + mem_cost in
  let* gas_remaining := _charge_gas gas_remaining total_cost in
  if msg_is_static message && is_call call_type && (0 <? value) then
    raise (WriteProtectionError "Cannot transfer value in static context")
  else
    let* st := read mc_state in
    if is_call call_type && (0 <? value)
       && (get_balance st (msg_target message) <? value) then
      ret (Rejected gas_remaining)
    else
      let gas_cap := gas_remaining - gas_remaining / 64 in
      let gas_to_forward := Z.min gas gas_cap in
      let gas_to_forward :=
        if is_call call_type && (0 <? value)
        then gas_to_forward + G_CALLSTIPEND gs else gas_to_forward in
      let gas_remaining := gas_remaining - gas_to_forward in
      let* call_data := mem_load args_offset args_size in
      let* st := read mc_state in
      let code_to_execute := get_code st address in
      let target_address :=
        match call_type with
        | CT_CALL | CT_STATICCALL => address
        | CT_CALLCODE | CT_DELEGATECALL => msg_target message
        end in
      let caller :=
        match call_type with
        | CT_DELEGATECALL => msg_caller message
        | _ => msg_target message
        end in
      (if is_call call_type && (0 <? value) then
         update_state (fun s =>
           set_balance s (msg_target message)
                       (get_balance s (msg_target message) - value)) ;;
         update_state (fun s =>
           set_balance s address (get_balance s address + value))
       else ret tt) ;;
      ret (Invoke
        {| cp_message :=
             {| msg_caller := caller;
                msg_target := target_address;
                msg_value :=
                  match call_type with
                  | CT_CALL | CT_CALLCODE => value
                  | _ => msg_value message
                  end;
                msg_data := call_data;
                msg_gas := gas_to_forward;
                msg_depth := msg_depth message + 1;
                msg_code := code_to_execute;
                msg_code_address := address;
                msg_is_static :=
                  msg_is_static message
                  || match call_type with CT_STATICCALL => true | _ => false end;
                msg_is_create := false |};
           cp_gas_remaining := gas_remaining;
           cp_ret_offset := ret_offset;
           cp_ret_size := ret_size |}).

(** [_handle_call] from the return of the nested [execute] on. *)
Definition call_finish (pc : Z) (plan : CallPlan) (result : ExecutionResult)
  : M OpcodeResult :=
  set_return_data (r_return_data result) ;;
  let gas_remaining := cp_gas_remaining plan + r_gas_remaining result in
  let copy_size := Z.min (cp_ret_size plan) (len (r_return_data result)) in
  (if 0 <? copy_size then
     mem_store (cp_ret_offset plan) (slice (r_return_data result) 0 copy_size)
   else ret tt) ;;
  push (if r_success result then 1 else 0) ;;
  continue_at (pc + 1) gas_remaining.

Definition _handle_call (pc : Z) (message : Message) (gas_remaining : Z)
           (call_type : CallType) : M OpcodeResult :=
  let* prepared := call_prepare message gas_remaining call_type in
  match prepared with
  | Rejected gas_remaining => push 0 ;; continue_at (pc + 1) gas_remaining
  | Invoke plan =>
      let* result := execute (cp_message plan) in
      call_finish pc plan result
  end.

(** The if-chain of [_execute_opcode] is cut into groups, each falling
    through to the next; this is the last one, from CREATE on. *)
Definition execute_system (opcode pc : Z) (message : Message) (gas_remaining : Z)
  : M OpcodeResult :=
  if opcode =? Opcode.CREATE then
    if msg_is_static message then
      raise (WriteProtectionError "Cannot CREATE in static context")
    else
      let* value := pop in
      let* offset := pop in
      let* size := pop in
      let* mem_cost := expansion_cost offset size in
      let* gas_remaining := _charge_gas gas_remaining (G_CREATE gs + mem_cost) in
      let* st := read mc_state in
      if get_balance st (msg_target message) <? value then
        push 0 ;; continue_at (pc + 1) gas_remaining
      else
        let* init_code := mem_load offset size in
        let sender_nonce := nonce (get_account st (msg_target message)) in
        let* new_address := lift (create_address (msg_target message) sender_nonce) in
        update_state (fun s => increment_nonce s (msg_target message)) ;;
        update_state (fun s =>
          set_balance s (msg_target message)
                      (get_balance s (msg_target message) - value)) ;;
        update_state (fun s =>
          set_balance s new_address (get_balance s new_address + value)) ;;
        let create_gas := gas_remaining - gas_remaining / 64 in
        let gas_remaining := gas_remaining - create_gas in
        let create_message :=
          {| msg_caller := msg_target message;
             msg_target := new_address;
             msg_value := value;
             msg_data := [];
             msg_gas := create_gas;
             msg_depth := msg_depth message + 1;
             msg_code := init_code;
             msg_code_address := ZERO_ADDRESS;
             msg_is_static := false;
             msg_is_create := true |} in
        let* result := execute create_message in
        set_return_data (r_return_data result) ;;
        if r_success result then
          let deploy_gas := len (r_return_data result) * G_CODEDEPOSIT gs in
          if deploy_gas <=? r_gas_remaining result then
            update_state (fun s => set_code s new_address (r_return_data result)) ;;
            push (from_bytes_big new_address) ;;
            continue_at (pc + 1)
                        (gas_remaining + (r_gas_remaining result - deploy_gas))
          else
            push 0 ;;
            continue_at (pc + 1) (gas_remaining + r_gas_remaining result)
        else
          push 0 ;;
          continue_at (pc + 1) (gas_remaining + r_gas_remaining result)
  else if opcode =? Opcode.CALL then
    _handle_call pc message gas_remaining CT_CALL
  else if opcode =? Opcode.CALLCODE then
    _handle_call pc message gas_remaining CT_CALLCODE
  else if opcode =? Opcode.RETURN then
    let* offset := pop in
    let* size := pop in
    let* mem_cost := expansion_cost offset size in
    let* gas_remaining := _charge_gas gas_remaining mem_cost in
    let* return_data := mem_load offset size in
    finish true gas_remaining return_data
  else if opcode =? Opcode.DELEGATECALL then
    _handle_call pc message gas_remaining CT_DELEGATECALL
  else if opcode =? Opcode.CREATE2 then
    if msg_is_static message then
      raise (WriteProtectionError "Cannot CREATE2 in static context")
    else
      let* value := pop in
      let* offset := pop in
      let* size := pop in
      let* salt := pop in
      let* mem_cost := expansion_cost offset size in
      let hash_cost := copy_cost gs size in
      let* gas_remaining :=
        _charge_gas gas_remaining (G_CREATE gs + mem_cost + hash_cost) in
      let* st := read mc_state in
      if get_balance st (msg_target message) <? value then
        push 0 ;; continue_at (pc + 1) gas_remaining
      else
        let* init_code := mem_load offset size in
        (* [hashlib] is a local name of [_execute_opcode], bound only by
           the [import] inside the SHA3 branch: reading it here raises,
           and the rest of the branch is never reached. *)
        raise (PyError "UnboundLocalError")
  else if opcode =? Opcode.STATICCALL then
    _handle_call pc message gas_remaining CT_STATICCALL
  else if opcode =? Opcode.REVERT then
    let* offset := pop in
    let* size := pop in
    let* mem_cost := expansion_cost offset size in
    let* gas_remaining := _charge_gas gas_remaining mem_cost in
    let* return_data := mem_load offset size in
    finish false gas_remaining return_data
  else if opcode =? Opcode.INVALID then
    raise (InvalidOpcodeError "INVALID opcode")
  else if opcode =? Opcode.SELFDESTRUCT then
    if msg_is_static message then
      raise (WriteProtectionError "Cannot SELFDESTRUCT in static context")
    else
      let* gas_remaining := _charge_gas gas_remaining (G_SELFDESTRUCT gs) in
      let* recipient_addr := pop in
      let* recipient := address_of_word recipient_addr in
      let* st := read mc_state in
      let balance := get_balance st (msg_target message) in
      update_state (fun s =>
        set_balance s recipient (get_balance s recipient + balance)) ;;
      update_state (fun s => set_balance s (msg_target message) 0) ;;
      update_state (fun s => set_account s (msg_target message) empty_account) ;;
      finish true gas_remaining []
  else raise (UnknownOpcodeError opcode).

(** [topics = [stack.pop().to_bytes(32, "big") for _ in range(num_topics)]];
    a popped word always fits 32 bytes. *)
Fixpoint pop_topics (n : nat) : M (list bytes) :=
  match n with
  | O => ret []
  | S n' =>
      let* t := pop in
      let* rest := pop_topics n' in
      ret (to_bytes_big_aux 32 t [] :: rest)
  end.

(** From POP to the LOG family. *)
Definition execute_stack_memory_flow
           (opcode pc : Z) (code : bytes) (message : Message) (gas_remaining : Z)
           (valid_jumpdests : gset Z) : M OpcodeResult :=
  if opcode =? Opcode.POP then
    let* gas_remaining := _charge_gas gas_remaining (G_BASE gs) in
    let* _ := pop in
    continue_at (pc + 1) gas_remaining
  else if opcode =? Opcode.MLOAD then
    let* offset := pop in
    let* mem_cost := expansion_cost offset 32 in
    let* gas_remaining := _charge_gas gas_remaining (G_VERYLOW gs + mem_cost) in
    let* value := load_word offset in
    push value ;;
    continue_at (pc + 1) gas_remaining
  else if opcode =? Opcode.MSTORE then
    let* offset := pop in
    let* value := pop in
    let* mem_cost := expansion_cost offset 32 in
    let* gas_remaining := _charge_gas gas_remaining (G_VERYLOW gs + mem_cost) in
    store_word offset value ;;
    continue_at (pc + 1) gas_remaining
  else if opcode =? Opcode.MSTORE8 then
    let* offset := pop in
    let* value := pop in
    let* mem_cost := expansion_cost offset 1 in
    let* gas_remaining := _charge_gas gas_remaining (G_VERYLOW gs + mem_cost) in
    store_byte offset value ;;
    continue_at (pc + 1) gas_remaining
  else if opcode =? Opcode.SLOAD then
    let* gas_remaining := _charge_gas gas_remaining (G_SLOAD gs) in
    let* key := pop in
    let* st := read mc_state in
    push (get_storage st (msg_target message) key) ;;
    continue_at (pc + 1) gas_remaining
  else if opcode =? Opcode.SSTORE then
    if msg_is_static message then
      raise (WriteProtectionError "Cannot SSTORE in static context")
    else
      let* key := pop in
      let* value := pop in
      let* st := read mc_state in
      let current := get_storage st (msg_target message) key in
      let gas_cost := sstore_cost gs current value in
      let* gas_remaining := _charge_gas gas_remaining gas_cost in
      update_state (fun s => set_storage s (msg_target message) key value) ;;
      continue_at (pc + 1) gas_remaining
  else if opcode =? Opcode.JUMP then
    let* gas_remaining := _charge_gas gas_remaining (G_MID gs) in
    let* dest := pop in
    if negb (bool_decide (dest ∈ valid_jumpdests)) then raise (InvalidJumpError dest)
    else continue_at dest gas_remaining
  else if opcode =? Opcode.JUMPI then
    let* gas_remaining := _charge_gas gas_remaining (G_HIGH gs) in
    let* dest := pop in
    let* cond := pop in
    if negb (cond =? 0) then
      if negb (bool_decide (dest ∈ valid_jumpdests)) then raise (InvalidJumpError dest)
      else continue_at dest gas_remaining
    else continue_at (pc + 1) gas_remaining
  else if opcode =? Opcode.PC then
    let* gas_remaining := _charge_gas gas_remaining (G_BASE gs) in
    push pc ;;
    continue_at (pc + 1) gas_remaining
  else if opcode =? Opcode.MSIZE then
    let* gas_remaining := _charge_gas gas_remaining (G_BASE gs) in
    let* size := msize in
    push size ;;
    continue_at (pc + 1) gas_remaining
  else if opcode =? Opcode.GAS then
    let* gas_remaining := _charge_gas gas_remaining (G_BASE gs) in
    push gas_remaining ;;
    continue_at (pc + 1) gas_remaining
  else if opcode =? Opcode.JUMPDEST then
    let* gas_remaining := _charge_gas gas_remaining (G_JUMPDEST gs) in
    continue_at (pc + 1) gas_remaining
  else if (Opcode.PUSH1 <=? opcode) && (opcode <=? Opcode.PUSH32) then
    let* gas_remaining := _charge_gas gas_remaining (G_VERYLOW gs) in
    let push_size := opcode - Opcode.PUSH1 + 1 in
    let push_data := slice code (pc + 1) (pc + 1 + push_size) in
    let push_data :=
      if len push_data <? push_size
      then push_data ++ zeros (push_size - len push_data) else push_data in
    push (from_bytes_big push_data) ;;
    continue_at (pc + 1 + push_size) gas_remaining
  else if (Opcode.DUP1 <=? opcode) && (opcode <=? Opcode.DUP16) then
    let* gas_remaining := _charge_gas gas_remaining (G_VERYLOW gs) in
    dup (opcode - Opcode.DUP1 + 1) ;;
    continue_at (pc + 1) gas_remaining
  else if (Opcode.SWAP1 <=? opcode) && (opcode <=? Opcode.SWAP16) then
    let* gas_remaining := _charge_gas gas_remaining (G_VERYLOW gs) in
    swap (opcode - Opcode.SWAP1 + 1) ;;
    continue_at (pc + 1) gas_remaining
  else if (Opcode.LOG0 <=? opcode) && (opcode <=? Opcode.LOG4) then
    if msg_is_static message then
      raise (WriteProtectionError "Cannot LOG in static context")
    else
      let num_topics := opcode - Opcode.LOG0 in
      let* offset := pop in
      let* size := pop in
      let* topics := pop_topics (Z.to_nat num_topics) in
      let* mem_cost := expansion_cost offset size in
      let cost := log_cost gs size num_topics in
      let* gas_remaining := _charge_gas gas_remaining (mem_cost + cost) in
      let* data := mem_load offset size in
      let* logs := read mc_logs in
      set_logs (logs ++ [ {| log_address := msg_target message;
                             log_topics := topics; log_data := data |} ]) ;;
      continue_at (pc + 1) gas_remaining
  else execute_system opcode pc message gas_remaining.

(** From BLOCKHASH to BASEFEE. *)
Definition execute_block_info
           (opcode pc : Z) (code : bytes) (message : Message) (gas_remaining : Z)
           (valid_jumpdests : gset Z) : M OpcodeResult :=
  (* the opcodes that charge G_BASE and push one value *)
  let push_base (value : Z) : M OpcodeResult :=
    let* gas_remaining := _charge_gas gas_remaining (G_BASE gs) in
    push value ;;
    continue_at (pc + 1) gas_remaining in
  if opcode =? Opcode.BLOCKHASH then
    let* gas_remaining := _charge_gas gas_remaining (G_BLOCKHASH gs) in
    let* block_num := pop in
    (if (env_number env <=? block_num) || (256 <? env_number env - block_num) then
       push 0
     else
       let block_hash := default (zeros 32) (env_block_hashes env !! block_num) in
       push (from_bytes_big block_hash)) ;;
    continue_at (pc + 1) gas_remaining
  else if opcode =? Opcode.COINBASE then push_base (from_bytes_big (env_coinbase env))
  else if opcode =? Opcode.TIMESTAMP then push_base (env_timestamp env)
  else if opcode =? Opcode.NUMBER then push_base (env_number env)
  else if opcode =? Opcode.DIFFICULTY then push_base (env_difficulty env)
  else if opcode =? Opcode.GASLIMIT then push_base (env_gas_limit env)
  else if opcode =? Opcode.CHAINID then push_base (env_chain_id env)
  else if opcode =? Opcode.SELFBALANCE then
    let* gas_remaining := _charge_gas gas_remaining (G_LOW gs) in
    let* st := read mc_state in
    push (get_balance st (msg_target message)) ;;
    continue_at (pc + 1) gas_remaining
  else if opcode =? Opcode.BASEFEE then push_base (env_base_fee env)
  else execute_stack_memory_flow opcode pc code message gas_remaining valid_jumpdests.

(** The loop of CALLDATALOAD: 32 bytes from [data] at [offset],
    zero-padded. *)
Definition calldataload (data : bytes) (offset : Z) : Z :=
  fold_left
    (fun value i =>
       if offset + i <? len data
       then Z.lor (Z.shiftl value 8) (byte_at data (offset + i))
       else Z.shiftl value 8)
    (range 32) 0.

(** SHA3 and the environment opcodes, ADDRESS to EXTCODEHASH. *)
Definition execute_environment
           (opcode pc : Z) (code : bytes) (message : Message) (gas_remaining : Z)
           (valid_jumpdests : gset Z) : M OpcodeResult :=
  let push_base (value : Z) : M OpcodeResult :=
    let* gas_remaining := _charge_gas gas_remaining (G_BASE gs) in
    push value ;;
    continue_at (pc + 1) gas_remaining in
  (* CALLDATACOPY, CODECOPY, EXTCODECOPY after their pops *)
  let copy_to_memory (fixed : Z) (src : M bytes) (dest_offset src_offset size : Z)
    : M OpcodeResult :=
    let* mem_cost := expansion_cost dest_offset size in
    let cost := copy_cost gs size in
    let* gas_remaining := _charge_gas gas_remaining (fixed + mem_cost + cost) in
    let* data := src in
    mem_store dest_offset (copy_padded data src_offset size) ;;
    continue_at (pc + 1) gas_remaining in
  if opcode =? Opcode.SHA3 then
    let* offset := pop in
    let* size := pop in
    let* mem_cost := expansion_cost offset size in
    let gas_cost := sha3_cost gs size + mem_cost in
    let* gas_remaining := _charge_gas gas_remaining gas_cost in
    let* data := mem_load offset size in
    let h := hashlib_sha3_256 data in
    push (from_bytes_big h) ;;
    continue_at (pc + 1) gas_remaining
  else if opcode =? Opcode.ADDRESS then push_base (from_bytes_big (msg_target message))
  else if opcode =? Opcode.BALANCE then
    let* gas_remaining := _charge_gas gas_remaining (G_BALANCE gs) in
    let* addr := pop in
    let* address := address_of_word addr in
    let* st := read mc_state in
    push (get_balance st address) ;;
    continue_at (pc + 1) gas_remaining
  else if opcode =? Opcode.ORIGIN then push_base (from_bytes_big (env_origin env))
  else if opcode =? Opcode.CALLER then push_base (from_bytes_big (msg_caller message))
  else if opcode =? Opcode.CALLVALUE then push_base (msg_value message)
  else if opcode =? Opcode.CALLDATALOAD then
    let* gas_remaining := _charge_gas gas_remaining (G_VERYLOW gs) in
    let* offset := pop in
    push (calldataload (msg_data message) offset) ;;
    continue_at (pc + 1) gas_remaining
  else if opcode =? Opcode.CALLDATASIZE then push_base (len (msg_data message))
  else if opcode =? Opcode.CALLDATACOPY then
    let* dest_offset := pop in
    let* src_offset := pop in
    let* size := pop in
    copy_to_memory (G_VERYLOW gs) (ret (msg_data message)) dest_offset src_offset size
  else if opcode =? Opcode.CODESIZE then push_base (len code)
  else if opcode =? Opcode.CODECOPY then
    let* dest_offset := pop in
    let* src_offset := pop in
    let* size := pop in
    copy_to_memory (G_VERYLOW gs) (ret code) dest_offset src_offset size
  else if opcode =? Opcode.GASPRICE then push_base (env_gas_price env)
  else if opcode =? Opcode.EXTCODESIZE then
    let* gas_remaining := _charge_gas gas_remaining (G_EXTCODESIZE gs) in
    let* addr := pop in
    let* address := address_of_word addr in
    let* st := read mc_state in
    push (len (get_code st address)) ;;
    continue_at (pc + 1) gas_remaining
  else if opcode =? Opcode.EXTCODECOPY then
    let* addr := pop in
    let* dest_offset := pop in
    let* src_offset := pop in
    let* size := pop in
    copy_to_memory (G_EXTCODECOPY gs)
      (let* address := address_of_word addr in
       let* st := read mc_state in
       ret (get_code st address))
      dest_offset src_offset size
  else if opcode =? Opcode.RETURNDATASIZE then
    let* data := read mc_return_data in
    push_base (len data)
  else if opcode =? Opcode.RETURNDATACOPY then
    let* dest_offset := pop in
    let* src_offset := pop in
    let* size := pop in
    let* data := read mc_return_data in
    if len data <? src_offset + size then raise (EVMError "Return data out of bounds")
    else
      let* mem_cost := expansion_cost dest_offset size in
      let cost := copy_cost gs size in
      let* gas_remaining :=
        _charge_gas gas_remaining (G_VERYLOW gs + mem_cost + cost) in
      mem_store dest_offset (slice data src_offset (src_offset + size)) ;;
      continue_at (pc + 1) gas_remaining
  else if opcode =? Opcode.EXTCODEHASH then
    let* gas_remaining := _charge_gas gas_remaining (G_BALANCE gs) in
    let* addr := pop in
    let* address := address_of_word addr in
    let* st := read mc_state in
    if negb (account_exists st address) then
      push 0 ;;
      continue_at (pc + 1) gas_remaining
    else
      (* both remaining branches read the unbound local [hashlib] *)
      raise (PyError "UnboundLocalError")
  else execute_block_info opcode pc code message gas_remaining
         valid_jumpdests.

Definition b2z (b : bool) : Z := if b then 1 else 0.

Definition sdiv (a b : Z) : Z :=
  if b =? 0 then 0
  else
    let sa := unsigned_to_signed a in
    let sb := unsigned_to_signed b in
    if (sa =? - 2 ^ 255) && (sb =? -1) then 2 ^ 255
    else
      let sign := if negb (Bool.eqb (sa <? 0) (sb <? 0)) then -1 else 1 in
      signed_to_unsigned (sign * (Z.abs sa / Z.abs sb)).

Definition smod (a b : Z) : Z :=
  if b =? 0 then 0
  else
    let sa := unsigned_to_signed a in
    let sb := unsigned_to_signed b in
    let sign := if sa <? 0 then -1 else 1 in
    signed_to_unsigned (sign * (Z.abs sa mod Z.abs sb)).

Definition signextend (b x : Z) : Z :=
  if b <? 31 then
    let sign_bit := Z.shiftl 1 (8 * b + 7) in
    let mask := Z.shiftl 1 (8 * (b + 1)) - 1 in
    if negb (Z.land x sign_bit =? 0) then Z.lor x (Z.lxor MAX_U256 mask)
    else Z.land x mask
  else x.

Definition byte_op (i x : Z) : Z :=
  if 32 <=? i then 0 else Z.land (Z.shiftr x (8 * (31 - i))) 0xFF.

Definition sar (shift value : Z) : Z :=
  let signed_value := unsigned_to_signed value in
  if 256 <=? shift then (if signed_value <? 0 then MAX_U256 else 0)
  else signed_to_unsigned (Z.shiftr signed_value shift).

(** [_execute_opcode]: STOP, the arithmetic, comparison and bitwise
    opcodes, then the later groups. *)
Definition _execute_opcode
           (opcode pc : Z) (code : bytes) (message : Message) (gas_remaining : Z)
           (valid_jumpdests : gset Z) : M OpcodeResult :=
  (* charge, pop the operands top first, push the result *)
  let unary (cost : Z) (f : Z -> Z) : M OpcodeResult :=
    let* gas_remaining := _charge_gas gas_remaining cost in
    let* a := pop in
    push (f a) ;;
    continue_at (pc + 1) gas_remaining in
  let binary (cost : Z) (f : Z -> Z -> Z) : M OpcodeResult :=
    let* gas_remaining := _charge_gas gas_remaining cost in
    let* a := pop in
    let* b := pop in
    push (f a b) ;;
    continue_at (pc + 1) gas_remaining in
  let ternary (cost : Z) (f : Z -> Z -> Z -> Z) : M OpcodeResult :=
    let* gas_remaining := _charge_gas gas_remaining cost in
    let* a := pop in
    let* b := pop in
    let* n := pop in
    push (f a b n) ;;
    continue_at (pc + 1) gas_remaining in
  if opcode =? Opcode.STOP then finish true gas_remaining []
  else if opcode =? Opcode.ADD then binary (G_VERYLOW gs) (fun a b => u256 (a + b))
  else if opcode =? Opcode.MUL then binary (G_LOW gs) (fun a b => u256 (a * b))
  else if opcode =? Opcode.SUB then binary (G_VERYLOW gs) (fun a b => u256 (a - b))
  else if opcode =? Opcode.DIV then
    binary (G_LOW gs) (fun a b => if negb (b =? 0) then a / b else 0)
  else if opcode =? Opcode.SDIV then binary (G_LOW gs) sdiv
  else if opcode =? Opcode.MOD then
    binary (G_LOW gs) (fun a b => if negb (b =? 0) then a mod b else 0)
  else if opcode =? Opcode.SMOD then binary (G_LOW gs) smod
  else if opcode =? Opcode.ADDMOD then
    ternary (G_MID gs) (fun a b n => if negb (n =? 0) then (a + b) mod n else 0)
  else if opcode =? Opcode.MULMOD then
    ternary (G_MID gs) (fun a b n => if negb (n =? 0) then (a * b) mod n else 0)
  else if opcode =? Opcode.EXP then
    let* a := pop in
    let* b := pop in
    let gas_cost := exp_cost gs b in
    let* gas_remaining := _charge_gas gas_remaining gas_cost in
    push (pow_mod a b (2 ^ 256)) ;;
    continue_at (pc + 1) gas_remaining
  else if opcode =? Opcode.SIGNEXTEND then binary (G_LOW gs) signextend
  else if opcode =? Opcode.LT then binary (G_VERYLOW gs) (fun a b => b2z (a <? b))
  else if opcode =? Opcode.GT then binary (G_VERYLOW gs) (fun a b => b2z (b <? a))
  else if opcode =? Opcode.SLT then
    binary (G_VERYLOW gs)
           (fun a b => b2z (unsigned_to_signed a <? unsigned_to_signed b))
  else if opcode =? Opcode.SGT then
    binary (G_VERYLOW gs)
           (fun a b => b2z (unsigned_to_signed b <? unsigned_to_signed a))
  else if opcode =? Opcode.EQ then binary (G_VERYLOW gs) (fun a b => b2z (a =? b))
  else if opcode =? Opcode.ISZERO then unary (G_VERYLOW gs) (fun a => b2z (a =? 0))
  else if opcode =? Opcode.AND then binary (G_VERYLOW gs) Z.land
  else if opcode =? Opcode.OR then binary (G_VERYLOW gs) Z.lor
  else if opcode =? Opcode.XOR then binary (G_VERYLOW gs) Z.lxor
  else if opcode =? Opcode.NOT then unary (G_VERYLOW gs) (fun a => Z.lxor MAX_U256 a)
  else if opcode =? Opcode.BYTE then binary (G_VERYLOW gs) byte_op
  else if opcode =? Opcode.SHL then
    binary (G_VERYLOW gs)
           (fun shift value => if 256 <=? shift then 0 else u256 (Z.shiftl value shift))
  else if opcode =? Opcode.SHR then
    binary (G_VERYLOW gs)
           (fun shift value => if 256 <=? shift then 0 else Z.shiftr value shift)
  else if opcode =? Opcode.SAR then binary (G_VERYLOW gs) sar
  else execute_environment opcode pc code message gas_remaining
         valid_jumpdests.
End Interpreter.

(** The [except] clauses of [execute] catch every exception class of the
    interpreter; anything else propagates to the caller. *)
Definition caught (e : exn) : bool :=
  match e with PyError _ => false | _ => true end.

(** The result every [except] clause and the depth check build. *)
Definition failure (message : Message) (e : error) : ExecutionResult :=
  {| r_success := false; r_gas_used := msg_gas message; r_gas_remaining := 0;
     r_return_data := []; r_logs := []; r_error := Some e;
     r_created_address := None |}.

(** The prelude of [execute] around a loop: the depth check, the fresh
    [Stack], [Memory] and [logs] of the frame, and the jump-destination
    scan.  The caller's stack, memory and logs are untouched by the
    nested frame; [self.state] and [self.return_data] are shared. *)
Definition execute_with
           (loop : Message -> gset Z -> Z -> Z -> M ExecutionResult)
           (message : Message) : M ExecutionResult :=
  if MAX_CALL_DEPTH <? msg_depth message then ret (failure message CallDepthExceeded)
  else fun m =>
    let frame :=
      {| mc_stack := []; mc_memory := []; mc_logs := [];
         mc_state := mc_state m; mc_return_data := mc_return_data m |} in
    match loop message (_find_jumpdests (msg_code message)) 0 (msg_gas message) frame with
    | None => None
    | Some (r, m') =>
        Some (r, {| mc_stack := mc_stack m; mc_memory := mc_memory m;
                    mc_logs := mc_logs m; mc_state := mc_state m';
                    mc_return_data := mc_return_data m' |})
    end.

(** One turn of the [while] loop of [execute] up to the opcode's result.
    Byte [0x5F] is checked before dispatch: [Interpreter.execute]
    (Frontier, inherited by Homestead) raises; [ShanghaiInterpreter.execute]
    charges [G_PUSH0], pushes 0 and moves on. *)
Definition dispatch (execute : Message -> M ExecutionResult) (fork : Fork)
           (env : Environment) (message : Message) (valid_jumpdests : gset Z)
           (pc gas_remaining : Z) : M OpcodeResult :=
  let code := msg_code message in
  let opcode_byte := byte_at code pc in
  if opcode_byte =? Opcode.PUSH0 then
    match fork with
    | Shanghai =>
        let* gas_remaining := _charge_gas gas_remaining G_PUSH0 in
        push 0 ;;
        continue_at (pc + 1) gas_remaining
    | _ =>
        raise (InvalidOpcodeError ("PUSH0 not supported in " ++ fork_name fork))
    end
  else
    _execute_opcode execute (gas_schedule_of fork) env opcode_byte pc code message
                    gas_remaining valid_jumpdests.

(** The [while pc < len(code)] loop with its [try]/[except]. *)
Fixpoint run_loop (fuel : nat) (fork : Fork) (env : Environment) (message : Message)
         (valid_jumpdests : gset Z) (pc gas_remaining : Z) : M ExecutionResult :=
  match fuel with
  | O => out_of_fuel
  | S fuel' =>
      if pc <? len (msg_code message) then
        fun m =>
          match dispatch (execute_with (run_loop fuel' fork env)) fork env message
                         valid_jumpdests pc gas_remaining m with
          | None => None
          | Some (inl e, m') =>
              if caught e then Some (inr (failure message (Raised e)), m')
              else Some (inl e, m')
          | Some (inr result, m') =>
              if or_done result then
                Some (inr {| r_success := or_success result;
                             r_gas_used := msg_gas message - or_gas_remaining result;
                             r_gas_remaining := or_gas_remaining result;
                             r_return_data := or_return_data result;
                             r_logs := mc_logs m';
                             r_error := or_error result;
                             r_created_address := or_created_address result |}, m')
              else
                run_loop fuel' fork env message valid_jumpdests
                         (or_pc result) (or_gas_remaining result) m'
          end
      else
        let* logs := read mc_logs in
        ret {| r_success := true; r_gas_used := msg_gas message - gas_remaining;
               r_gas_remaining := gas_remaining; r_return_data := [];
               r_logs := logs; r_error := None; r_created_address := None |}
  end.

(** [Interpreter.execute], [HomesteadInterpreter.execute] (inherited) and
    [ShanghaiInterpreter.execute]. *)
Definition execute (fuel : nat) (fork : Fork) (env : Environment) (message : Message)
  : M ExecutionResult :=
  execute_with (run_loop fuel fork env) message.

(** An interpreter object fresh from [Interpreter(state, env)]. *)
Definition new_interpreter (state : State) : Machine :=
  {| mc_stack := []; mc_memory := []; mc_logs := []; mc_state := state;
     mc_return_data := [] |}.

(** ** [ethereum/{frontier,homestead,shanghai}/fork.py] *)

(** [validate_transaction] of the three forks.  Frontier's and
    Homestead's are the same function; Shanghai's adds the initcode size
    check after the three common ones.  All three use the schedule's
    [transaction_intrinsic_gas] as it is. *)
Definition validate_transaction (fork : Fork) (tx : Transaction) (state : State)
  : option error :=
  let sender_account := get_account state (tx_sender tx) in
  if negb (nonce sender_account =? tx_nonce tx) then
    Some (InvalidNonce (nonce sender_account) (tx_nonce tx))
  else
    let is_create := match tx_to tx with None => true | Some _ => false end in
    let intrinsic_gas :=
      transaction_intrinsic_gas (gas_schedule_of fork) (tx_data tx) is_create in
    if tx_gas tx <? intrinsic_gas then
      Some (IntrinsicGasTooLow (tx_gas tx) intrinsic_gas)
    else
      let required := tx_gas tx * tx_gas_price tx + tx_value tx in
      if balance sender_account <? required then
        Some (InsufficientBalance (balance sender_account) required)
      else
        match fork with
        | Shanghai =>
            if is_create && (49152 <? len (tx_data tx)) then
              Some (InitcodeTooLarge (len (tx_data tx)))
            else None
        | _ => None
        end.

(** [Message(...)] checks that its address fields hold 20 bytes. *)
Definition valid_address (a : Address) : bool := len a =? 20.

(** The deployment step of a creation transaction after a successful
    init-code frame: the new [state] and the rebuilt [result]. *)
Definition deploy (fork : Fork) (tx : Transaction) (contract_address : Address)
           (state : State) (result : ExecutionResult) : State * ExecutionResult :=
  let too_large :=
    match fork with
    | Shanghai => 24576 <? len (r_return_data result)
    | _ => false
    end in
  if too_large then
    (state, {| r_success := false; r_gas_used := tx_gas tx; r_gas_remaining := 0;
               r_return_data := []; r_logs := [];
               r_error := Some CodeSizeLimitExceeded; r_created_address := None |})
  else
    let deploy_gas :=
      len (r_return_data result) * G_CODEDEPOSIT (gas_schedule_of fork) in
    if deploy_gas <=? r_gas_remaining result then
      (set_code state contract_address (r_return_data result),
       {| r_success := true;
          r_gas_used := tx_gas tx - r_gas_remaining result + deploy_gas;
          r_gas_remaining := r_gas_remaining result - deploy_gas;
          r_return_data := r_return_data result;
          r_logs := r_logs result;
          r_error := None;
          r_created_address := Some contract_address |})
    else
      (state, {| r_success := false; r_gas_used := tx_gas tx; r_gas_remaining := 0;
                 r_return_data := []; r_logs := [];
                 r_error := Some DeploymentOutOfGas; r_created_address := None |}).

(** The end of [state_transition]: gas accounting, refund, coinbase. *)
Definition settle (tx : Transaction) (env : Environment) (intrinsic_gas : Z)
           (state : State) (result : ExecutionResult) : State * ExecutionResult :=
  let total_gas_used :=
    if r_success result then intrinsic_gas + r_gas_used result else tx_gas tx in
  let refund := (tx_gas tx - total_gas_used) * tx_gas_price tx in
  let state :=
    set_balance state (tx_sender tx) (get_balance state (tx_sender tx) + refund) in
  let coinbase_reward := total_gas_used * tx_gas_price tx in
  let state :=
    set_balance state (env_coinbase env)
                (get_balance state (env_coinbase env) + coinbase_reward) in
  (state,
   {| r_success := r_success result;
      r_gas_used := total_gas_used;
      r_gas_remaining := tx_gas tx - total_gas_used;
      r_return_data := r_return_data result;
      r_logs := if r_success result then r_logs result else [];
      r_error := r_error result;
      r_created_address :=
        if r_success result then r_created_address result else None |}).

(** [state_transition] of the three forks.  The outer [option] is the
    model's fuel; [inl] is an exception leaving the function. *)
Definition state_transition (fuel : nat) (fork : Fork)
           (state : State) (tx : Transaction) (env : Environment)
  : option (exn + State * ExecutionResult) :=
  let state := copy state in
  match validate_transaction fork tx state with
  | Some e =>
      Some (inr (state,
                 {| r_success := false; r_gas_used := 0; r_gas_remaining := 0;
                    r_return_data := []; r_logs := []; r_error := Some e;
                    r_created_address := None |}))
  | None =>
      let sender_account := get_account state (tx_sender tx) in
      let upfront_cost := tx_gas tx * tx_gas_price tx in
      let state :=
        set_balance state (tx_sender tx) (balance sender_account - upfront_cost) in
      let state := increment_nonce state (tx_sender tx) in
      let is_create := match tx_to tx with None => true | Some _ => false end in
      let intrinsic_gas :=
        transaction_intrinsic_gas (gas_schedule_of fork) (tx_data tx) is_create in
      let intrinsic_gas :=
        match fork with
        | Shanghai =>
            if is_create then
              let initcode_words := (len (tx_data tx) + 31) / 32 in
              intrinsic_gas + 2 * initcode_words
            else intrinsic_gas
        | _ => intrinsic_gas
        end in
      let gas_remaining := tx_gas tx - intrinsic_gas in
      let tx_env :=
        {| env_caller := tx_sender tx; env_origin := tx_sender tx;
           env_block_hashes := env_block_hashes env;
           env_coinbase := env_coinbase env; env_number := env_number env;
           env_gas_limit := env_gas_limit env; env_gas_price := tx_gas_price tx;
           env_timestamp := env_timestamp env; env_difficulty := env_difficulty env;
           env_chain_id := env_chain_id env; env_base_fee := env_base_fee env |} in
      match tx_to tx with
      | None =>
          match create_address (tx_sender tx) (nonce sender_account) with
          | inl e => Some (inl e)
          | inr contract_address =>
              let state :=
                if 0 <? tx_value tx then
                  let state :=
                    set_balance state (tx_sender tx)
                                (get_balance state (tx_sender tx) - tx_value tx) in
                  set_balance state contract_address
                              (get_balance state contract_address + tx_value tx)
                else state in
              let message :=
                {| msg_caller := tx_sender tx; msg_target := contract_address;
                   msg_value := tx_value tx; msg_data := []; msg_gas := gas_remaining;
                   msg_depth := 0; msg_code := tx_data tx;
                   msg_code_address := ZERO_ADDRESS; msg_is_static := false;
                   msg_is_create := true |} in
              match execute fuel fork tx_env message (new_interpreter state) with
              | None => None
              | Some (inl e, _) => Some (inl e)
              | Some (inr result, m) =>
                  let '(state, result) :=
                    if r_success result
                    then deploy fork tx contract_address (mc_state m) result
                    else (mc_state m, result) in
                  Some (inr (settle tx env intrinsic_gas state result))
              end
          end
      | Some to =>
          let target := if is_empty to then ZERO_ADDRESS else to in
          let code := get_code state target in
          let state :=
            if 0 <? tx_value tx then
              let state :=
                set_balance state (tx_sender tx)
                            (get_balance state (tx_sender tx) - tx_value tx) in
              set_balance state target (get_balance state target + tx_value tx)
            else state in
          if negb (valid_address target) then Some (inl (PyError "ValidationError"))
          else
            let message :=
              {| msg_caller := tx_sender tx; msg_target := target;
                 msg_value := tx_value tx; msg_data := tx_data tx;
                 msg_gas := gas_remaining; msg_depth := 0; msg_code := code;
                 msg_code_address := ZERO_ADDRESS; msg_is_static := false;
                 msg_is_create := false |} in
            match execute fuel fork tx_env message (new_interpreter state) with
            | None => None
            | Some (inl e, _) => Some (inl e)
            | Some (inr result, m) =>
                Some (inr (settle tx env intrinsic_gas (mc_state m) result))
            end
      end
  end.

(** ** Definitions used by the statements *)

(** The machine after [stack.push(0)]. *)
Definition pushed_zero (m : Machine) : Machine :=
  {| mc_stack := 0 :: mc_stack m; mc_memory := mc_memory m; mc_logs := mc_logs m;
     mc_state := mc_state m; mc_return_data := mc_return_data m |}.

(** A computation that never grows the operand stack. *)
Definition stack_le {A} (c : M A) : Prop :=
  forall m r m', c m = Some (r, m') -> len (mc_stack m') <= len (mc_stack m).


(** The machine a nested frame starts on: [execute] gives it a fresh
    [Stack], [Memory] and log list; [self.state] and [self.return_data]
    are the interpreter's. *)
Definition frame_start (m : Machine) : Machine :=
  {| mc_stack := []; mc_memory := []; mc_logs := [];
     mc_state := mc_state m; mc_return_data := mc_return_data m |}.

(** The first [k] turns of the loop of a frame, each an opcode that
    returns and does not end the frame: the fuel left for the frames
    nested further down, the program counter, the gas and the machine
    after them. *)
Fixpoint turns (k fuel : nat) (fork : Fork) (env : Environment) (message : Message)
         (pc gas : Z) (m : Machine) : option (nat * Z * Z * Machine) :=
  match k, fuel with
  | O, _ => Some (fuel, pc, gas, m)
  | S _, O => None
  | S k', S fuel' =>
      if pc <? len (msg_code message) then
        match dispatch (execute fuel' fork env) fork env message
                       (_find_jumpdests (msg_code message)) pc gas m with
        | Some (inr r, m') =>
            if or_done r then None
            else turns k' fuel' fork env message (or_pc r) (or_gas_remaining r) m'
        | _ => None
        end
      else None
  end.



(** ** Concrete scenarios *)

Module Scenario.

Definition addr_A : Address := zeros 19 ++ [1].
Definition addr_B : Address := zeros 19 ++ [2].
Definition coinbase : Address := zeros 19 ++ [255].

(** The block environment of the repository's test fixtures. *)
Definition env : Environment :=
  {| env_caller := ZERO_ADDRESS; env_origin := ZERO_ADDRESS;
     env_block_hashes := ∅; env_coinbase := coinbase; env_number := 1000;
     env_gas_limit := 10000000; env_gas_price := 1; env_timestamp := 1000000;
     env_difficulty := 1; env_chain_id := 1; env_base_fee := 0 |}.

(** The funded sender of the test fixtures: balance 10^18. *)
Definition funded_state : State :=
  set_account empty_state addr_A
    {| nonce := 0; balance := 10 ^ 18; code := []; storage := ∅ |}.

(** A frame running in contract A. *)
Definition frame_of_A (gas : Z) (code : bytes) : Message :=
  {| msg_caller := ZERO_ADDRESS; msg_target := addr_A; msg_value := 0;
     msg_data := []; msg_gas := gas; msg_depth := 0; msg_code := code;
     msg_code_address := addr_A; msg_is_static := false; msg_is_create := false |}.

(** A holds 10 wei; B holds [code_B]. *)
Definition two_accounts (code_B : bytes) : State :=
  set_account
    (set_account empty_state addr_A
       {| nonce := 0; balance := 10; code := []; storage := ∅ |})
    addr_B {| nonce := 0; balance := 0; code := code_B; storage := ∅ |}.

(** The machine of a frame of A about to run a CALL to B: operands
    gas-hint, address, value, and four zero offsets and sizes. *)
Definition before_call (gas_hint value : Z) (code_B : bytes) : Machine :=
  {| mc_stack := [gas_hint; 2; value; 0; 0; 0; 0]; mc_memory := [];
     mc_logs := []; mc_state := two_accounts code_B; mc_return_data := [] |}.

(** A machine whose stack holds 1024 items. *)
Definition full_stack : Machine :=
  {| mc_stack := repeat 0 1024; mc_memory := []; mc_logs := [];
     mc_state := empty_state; mc_return_data := [] |}.

(** B stores 1 in slot 1 and then hits INVALID:
    PUSH1 1, PUSH1 1, SSTORE, INVALID. *)
Definition writes_then_fails : bytes := [0x60; 1; 0x60; 1; 0x55; 0xFE].





End Scenario.

Module ScenarioWitness.
Import Scenario.

Definition m0 : Machine := before_call 50000 1 writes_then_fails.

Definition prepared :=
  call_prepare (gas_schedule_of Frontier) (frame_of_A 100000 []) 100000 CT_CALL m0.

Definition plan : CallPlan :=
  match prepared with
  | Some (inr (Invoke p), _) => p
  | _ => {| cp_message := frame_of_A 0 []; cp_gas_remaining := 0;
            cp_ret_offset := 0; cp_ret_size := 0 |}
  end.

Definition m1 : Machine :=
  match prepared with Some (_, m) => m | None => m0 end.

(** The machine of the sub-frame after its three turns PUSH1, PUSH1 and
    SSTORE; INVALID, the fourth opcode, raises and leaves it as it is. *)
Definition mf : Machine :=
  match turns 3 10 Frontier env (cp_message plan) 0 (msg_gas (cp_message plan))
              (frame_start m1) with
  | Some (_, _, _, m) => m
  | None => frame_start m1
  end.
End ScenarioWitness.

Module CreationScenario.
Import Scenario.

(** The init code of the repository's [test_contract_creation]:
    PUSH1 0x42, PUSH1 0, MSTORE, PUSH1 32, PUSH1 0, RETURN. *)
Definition init_code : bytes :=
  [0x60; 0x42; 0x60; 0x00; 0x52; 0x60; 0x20; 0x60; 0x00; 0xF3].

Definition tx : Transaction :=
  {| tx_sender := addr_A; tx_to := None; tx_value := 0; tx_data := init_code;
     tx_gas := 100000; tx_gas_price := 1; tx_nonce := 0 |}.

Definition outcome := state_transition 100 Frontier funded_state tx env.

(** The address of the contract: [create_address] of A at nonce 0. *)
Definition contract : Address :=
  match create_address addr_A 0 with inr a => a | inl _ => ZERO_ADDRESS end.

(** The init-code frame on its own, with the gas the driver hands it. *)
Definition frame :=
  execute 100 Frontier env
    {| msg_caller := addr_A; msg_target := contract;
       msg_value := 0; msg_data := [];
       msg_gas := 100000 - transaction_intrinsic_gas FrontierGasSchedule init_code true;
       msg_depth := 0; msg_code := init_code; msg_code_address := ZERO_ADDRESS;
       msg_is_static := false; msg_is_create := true |}
    (new_interpreter funded_state).

Definition summary (o : option (exn + State * ExecutionResult))
  : option (bool * Z * Z * Z) :=
  match o with
  | Some (inr (s, r)) =>
      Some (r_success r, r_gas_used r, r_gas_remaining r, get_balance s addr_A)
  | _ => None
  end.

Definition frame_summary (o : option ((exn + ExecutionResult) * Machine))
  : option (bool * Z * Z) :=
  match o with
  | Some (inr r, _) => Some (r_success r, r_gas_used r, len (r_return_data r))
  | _ => None
  end.
End CreationScenario.

Module StipendScenario.
Import Scenario.

(** B's code is the single byte INVALID: the sub-frame burns whatever
    it is given. *)
Definition burns_all : bytes := [0xFE].

(** A, with 100000 gas at the CALL, sends 1 wei to B with gas-hint 0. *)
Definition call :=
  _handle_call (execute 10 Frontier env) FrontierGasSchedule 0
               (frame_of_A 100000 []) 100000 CT_CALL (before_call 0 1 burns_all).

Definition prepared (ct : CallType) :=
  call_prepare FrontierGasSchedule (frame_of_A 100000 []) 100000 ct
               (before_call 0 1 burns_all).

(** The gas given to the sub-frame and the gas kept by the caller. *)
Definition forwarded_and_kept (p : option ((exn + Prepared) * Machine))
  : option (Z * Z) :=
  match p with
  | Some (inr (Invoke plan), _) => Some (msg_gas (cp_message plan), cp_gas_remaining plan)
  | _ => None
  end.

Definition gas_after (r : option ((exn + OpcodeResult) * Machine)) : option Z :=
  match r with
  | Some (inr o, _) => Some (or_gas_remaining o)
  | _ => None
  end.
End StipendScenario.

Module StipendTransaction.
Import Scenario.

Definition addr_C : Address := zeros 19 ++ [3].

(** C pushes the operands of a CALL of 1 wei to B with gas-hint 0, runs
    the CALL and falls off the end of its code. *)
Definition code_C : bytes :=
  [0x60; 0; 0x60; 0; 0x60; 0; 0x60; 0; 0x60; 1; 0x60; 2; 0x60; 0; 0xF1].

Definition state : State :=
  set_account
    (set_account funded_state addr_C
       {| nonce := 0; balance := 5; code := code_C; storage := ∅ |})
    addr_B {| nonce := 0; balance := 0; code := StipendScenario.burns_all;
              storage := ∅ |}.

(** Intrinsic gas, seven pushes, the call cost, and 100 to spare. *)
Definition tx : Transaction :=
  {| tx_sender := addr_A; tx_to := Some addr_C; tx_value := 0; tx_data := [];
     tx_gas := 21000 + 21 + 9040 + 100; tx_gas_price := 1; tx_nonce := 0 |}.

Definition gas_used_of (o : option (exn + State * ExecutionResult))
  : option (bool * Z) :=
  match o with
  | Some (inr (_, r)) => Some (r_success r, r_gas_used r)
  | _ => None
  end.
End StipendTransaction.

Module InitcodeScenario.
Import Scenario.

(** A creation whose init code is the single byte STOP, with a gas
    limit equal to the base creation intrinsic: 53000 + 4. *)
Definition tx : Transaction :=
  {| tx_sender := addr_A; tx_to := None; tx_value := 0; tx_data := [0x00];
     tx_gas := 53004; tx_gas_price := 1; tx_nonce := 0 |}.

(** The full intrinsic cost of the claim: base plus 2 gas per word of
    init code. *)
Definition full_intrinsic (t : Transaction) : Z :=
  transaction_intrinsic_gas ShanghaiGasSchedule (tx_data t) true
  + 2 * ((len (tx_data t) + 31) / 32).

Definition outcome := state_transition 100 Shanghai funded_state tx env.

Definition summary (o : option (exn + State * ExecutionResult))
  : option (bool * Z * option error * Z * Z) :=
  match o with
  | Some (inr (s, r)) =>
      Some (r_success r, r_gas_used r, r_error r,
            nonce (get_account s addr_A), get_balance s addr_A)
  | _ => None
  end.
End InitcodeScenario.

(** ** More of the source and the vocabulary of the further properties *)

(** [Stack.peek]: the top of the stack is depth 0.  A negative depth
    passes the bound check and indexes the list from its bottom, as
    Python's [self._data[-(depth + 1)]] does. *)
Definition peek (depth : Z) : M Z :=
  let* s := read mc_stack in
  if len s <=? depth then raise StackUnderflowError
  else if 0 <=? depth then ret (nth (Z.to_nat depth) s 0)
  else
    let i := - (depth + 1) in
    if i <? len s then ret (nth (Z.to_nat i) (rev s) 0)
    else raise (PyError "IndexError").

(** [self._data[i] = v] on a list seen from the top. *)
Fixpoint replace_nth (n : nat) (v : Z) (s : list Z) : list Z :=
  match s, n with
  | [], _ => []
  | _ :: s', O => v :: s'
  | x :: s', S n' => x :: replace_nth n' v s'
  end.

(** [Stack.set] *)
Definition stack_set (depth value : Z) : M unit :=
  let* s := read mc_stack in
  if len s <=? depth then raise StackUnderflowError
  else if 0 <=? depth then set_stack (replace_nth (Z.to_nat depth) (u256 value) s)
  else
    let i := - (depth + 1) in
    if i <? len s then
      set_stack (rev (replace_nth (Z.to_nat i) (u256 value) (rev s)))
    else raise (PyError "IndexError").

(** The invariant of a frame's stack: at most 1024 words, each in the
    256-bit range. *)
Definition stack_ok (m : Machine) : Prop :=
  len (mc_stack m) <= MAX_DEPTH
  /\ Forall (fun w => 0 <= w < 2 ^ 256) (mc_stack m).

(** A computation that keeps the invariant, however it ends. *)
Definition keeps_stack_ok {A} (c : M A) : Prop :=
  forall m r m', stack_ok m -> c m = Some (r, m') -> stack_ok m'.

(** The invariant of a frame's memory: a whole number of 32-byte words. *)
Definition memory_aligned (m : Machine) : Prop := len (mc_memory m) mod 32 = 0.

Definition keeps_memory_aligned {A} (c : M A) : Prop :=
  forall m r m', memory_aligned m -> c m = Some (r, m') -> memory_aligned m'.

(** The position of the instruction after the one at [i]: a PUSHn is
    followed by its n immediate bytes. *)
Definition next_instruction (code : bytes) (i : Z) : Z :=
  (if (Opcode.PUSH1 <=? byte_at code i) && (byte_at code i <=? Opcode.PUSH32)
   then i + (byte_at code i - Opcode.PUSH1 + 1) else i) + 1.

(** [reaches code i x]: decoding instruction after instruction from
    position [i] arrives at position [x]. *)
Inductive reaches (code : bytes) : Z -> Z -> Prop :=
| reaches_here i : reaches code i i
| reaches_next i x :
    i < len code -> reaches code (next_instruction code i) x -> reaches code i x.

(** The instruction boundaries of a code: what decoding from position 0
    arrives at. *)
Definition instruction_start (code : bytes) (x : Z) : Prop := reaches code 0 x.

(** An opcode computation whose result, when it returns one, leaves the
    [error] and [created_address] of [_OpcodeResult] unset. *)
Definition plain_result (c : M OpcodeResult) : Prop :=
  forall m r m', c m = Some (inr r, m') ->
    or_error r = None /\ or_created_address r = None.

(** The shape of every result a frame returns. *)
Definition well_accounted (message : Message) (r : ExecutionResult) : Prop :=
  r_gas_used r + r_gas_remaining r = msg_gas message
  /\ r_created_address r = None
  /\ (r_error r <> None ->
      r_success r = false /\ r_gas_remaining r = 0
      /\ r_return_data r = [] /\ r_logs r = []).

(** The opcode bytes that write to the State or the logs: SSTORE, LOG0
    to LOG4, CREATE, CREATE2 and SELFDESTRUCT. *)
Definition writing_opcodes : list Z :=
  [0x55; 0xA0; 0xA1; 0xA2; 0xA3; 0xA4; 0xF0; 0xF5; 0xFF].

(** [apply_block] of [frontier/fork.py]: the transactions run in order,
    each on the State the one before left; an exception leaves the
    function. *)
Fixpoint apply_block (fuel : nat) (state : State) (transactions : list Transaction)
         (env : Environment) : option (exn + State * list ExecutionResult) :=
  match transactions with
  | [] => Some (inr (state, []))
  | tx :: rest =>
      match state_transition fuel Frontier state tx env with
      | None => None
      | Some (inl e) => Some (inl e)
      | Some (inr (state', result)) =>
          match apply_block fuel state' rest env with
          | None => None
          | Some (inl e) => Some (inl e)
          | Some (inr (final, results)) => Some (inr (final, result :: results))
          end
      end
  end.

(** Every element is a byte. *)
Definition all_bytes (data : bytes) : Prop := Forall (fun b => 0 <= b < 256) data.

(** Concrete inputs for the further properties. *)
Module Example.
Import Scenario.

Definition with_stack (s : list Z) : Machine :=
  {| mc_stack := s; mc_memory := []; mc_logs := []; mc_state := empty_state;
     mc_return_data := [] |}.

(** A static frame of A. *)
Definition static_frame (gas : Z) (code : bytes) : Message :=
  {| msg_caller := ZERO_ADDRESS; msg_target := addr_A; msg_value := 0;
     msg_data := []; msg_gas := gas; msg_depth := 0; msg_code := code;
     msg_code_address := addr_A; msg_is_static := true; msg_is_create := false |}.

(** The transfer of the repository's [test_simple_transfer]. *)
Definition transfer : Transaction :=
  {| tx_sender := addr_A; tx_to := Some addr_B; tx_value := 1000; tx_data := [];
     tx_gas := 21000; tx_gas_price := 1; tx_nonce := 0 |}.

(** The same transfer with nonce 1: out of turn on the funded state, in
    turn once [transfer] has run. *)
Definition next_transfer : Transaction :=
  {| tx_sender := addr_A; tx_to := Some addr_B; tx_value := 1000; tx_data := [];
     tx_gas := 21000; tx_gas_price := 1; tx_nonce := 1 |}.

Definition block := apply_block 1 funded_state [transfer] env.

Definition block_state : State :=
  match block with Some (inr (s, _)) => s | _ => funded_state end.

Definition block_results : list ExecutionResult :=
  match block with Some (inr (_, rs)) => rs | _ => [] end.

(** The result of a frame that runs the single byte STOP with 100 gas. *)
Definition stopped : ExecutionResult :=
  {| r_success := true; r_gas_used := 0; r_gas_remaining := 100;
     r_return_data := []; r_logs := []; r_error := None;
     r_created_address := None |}.
End Example.

(** * Properties *)

(** ** Unfolding lemmas for the monad and the loop *)

Lemma bind_inr {A B} (c : M A) (k : A -> M B) m a m' :
  c m = Some (inr a, m') -> bind c k m = k a m'.
Proof. intros H. unfold bind. now rewrite H. Qed.

Lemma bind_inv {A B} (c : M A) (k : A -> M B) m b m'' :
  bind c k m = Some (inr b, m'') ->
  exists a m', c m = Some (inr a, m') /\ k a m' = Some (inr b, m'').
Proof.
  unfold bind. destruct (c m) as [[[e | a] m'] |]; try discriminate.
  intros H. now exists a, m'.
Qed.

Lemma run_loop_S fuel fork env message jd pc gas m :
  run_loop (S fuel) fork env message jd pc gas m =
  (if pc <? len (msg_code message) then
     fun m =>
       match dispatch (execute fuel fork env) fork env message jd pc gas m with
       | None => None
       | Some (inl e, m') =>
           if caught e then Some (inr (failure message (Raised e)), m')
           else Some (inl e, m')
       | Some (inr result, m') =>
           if or_done result then
             Some (inr {| r_success := or_success result;
                          r_gas_used := msg_gas message - or_gas_remaining result;
                          r_gas_remaining := or_gas_remaining result;
                          r_return_data := or_return_data result;
                          r_logs := mc_logs m';
                          r_error := or_error result;
                          r_created_address := or_created_address result |}, m')
           else run_loop fuel fork env message jd
                         (or_pc result) (or_gas_remaining result) m'
       end
   else
     let* logs := read mc_logs in
     ret {| r_success := true; r_gas_used := msg_gas message - gas;
            r_gas_remaining := gas; r_return_data := [];
            r_logs := logs; r_error := None; r_created_address := None |}) m.
Proof. reflexivity. Qed.

(** ** Byte 0x5F across the forks *)

Lemma dispatch_push0_rejected execute fork env message jd pc gas m :
  fork <> Shanghai ->
  byte_at (msg_code message) pc = Opcode.PUSH0 ->
  dispatch execute fork env message jd pc gas m =
  Some (inl (InvalidOpcodeError ("PUSH0 not supported in " ++ fork_name fork)), m).
Proof.
  intros Hfork Hbyte. unfold dispatch. rewrite Hbyte, Z.eqb_refl.
  destruct fork; [reflexivity | reflexivity | congruence].
Qed.

Lemma dispatch_push0_shanghai execute env message jd pc gas m :
  byte_at (msg_code message) pc = Opcode.PUSH0 ->
  2 <= gas ->
  len (mc_stack m) < MAX_DEPTH ->
  dispatch execute Shanghai env message jd pc gas m =
  continue_at (pc + 1) (gas - 2) (pushed_zero m).
Proof.
  intros Hbyte Hgas Hdepth. unfold dispatch. rewrite Hbyte, Z.eqb_refl.
  unfold _charge_gas, G_PUSH0.
  destruct (gas <? 2) eqn:E; [apply Z.ltb_lt in E; lia |].
  unfold bind at 1. unfold ret at 1.
  unfold push, bind, read.
  destruct (MAX_DEPTH <=? len (mc_stack m)) eqn:E'; [apply Z.leb_le in E'; lia |].
  reflexivity.
Qed.

Lemma dispatch_push0_out_of_gas execute env message jd pc gas m :
  byte_at (msg_code message) pc = Opcode.PUSH0 ->
  gas < 2 ->
  dispatch execute Shanghai env message jd pc gas m = Some (inl OutOfGasError, m).
Proof.
  intros Hbyte Hgas. unfold dispatch. rewrite Hbyte, Z.eqb_refl.
  unfold _charge_gas, G_PUSH0. apply Z.ltb_lt in Hgas. rewrite Hgas.
  reflexivity.
Qed.

Lemma dispatch_push0_overflow execute env message jd pc gas m :
  byte_at (msg_code message) pc = Opcode.PUSH0 ->
  2 <= gas ->
  MAX_DEPTH <= len (mc_stack m) ->
  dispatch execute Shanghai env message jd pc gas m = Some (inl StackOverflowError, m).
Proof.
  intros Hbyte Hgas Hdepth. unfold dispatch. rewrite Hbyte, Z.eqb_refl.
  unfold _charge_gas, G_PUSH0.
  destruct (gas <? 2) eqn:E; [apply Z.ltb_lt in E; lia |].
  unfold bind at 1. unfold ret at 1.
  unfold push, bind, read. apply Z.leb_le in Hdepth. rewrite Hdepth.
  reflexivity.
Qed.

(** C6, as the code has it.  Byte 0x5F at the program counter.  Under
    Frontier and Homestead the frame fails with the invalid-opcode error
    and reports all of the message's gas as used, whatever the gas, stack
    and state are.  Under Shanghai, with at least 2 gas left and room on
    the stack, the turn of the loop pushes 0, charges exactly 2 gas and
    moves the program counter by 1: the opcode result says so, and the
    loop goes on from there.  With less than 2 gas the Shanghai frame
    fails with the out-of-gas error, and with 2 gas or more but 1024 items
    on the stack it fails with the stack-overflow error; both report all
    of the message's gas as used and push nothing. *)
Theorem push0_by_fork :
  forall (fuel : nat) (env : Environment) (message : Message) (jd : gset Z)
         (pc gas : Z) (m : Machine),
    0 <= pc < len (msg_code message) ->
    byte_at (msg_code message) pc = Opcode.PUSH0 ->
    (forall fork, fork = Frontier \/ fork = Homestead ->
       run_loop (S fuel) fork env message jd pc gas m =
       Some (inr {| r_success := false; r_gas_used := msg_gas message;
                    r_gas_remaining := 0; r_return_data := []; r_logs := [];
                    r_error :=
                      Some (Raised (InvalidOpcodeError
                                      ("PUSH0 not supported in " ++ fork_name fork)));
                    r_created_address := None |}, m))
    /\ (2 <= gas -> len (mc_stack m) < MAX_DEPTH ->
        dispatch (execute fuel Shanghai env) Shanghai env message jd pc gas m =
        Some (inr {| or_pc := pc + 1; or_gas_remaining := gas - 2;
                     or_done := false; or_success := true; or_return_data := [];
                     or_error := None; or_created_address := None |},
              pushed_zero m)
        /\ run_loop (S fuel) Shanghai env message jd pc gas m =
           run_loop fuel Shanghai env message jd (pc + 1) (gas - 2) (pushed_zero m))
    /\ (gas < 2 ->
        run_loop (S fuel) Shanghai env message jd pc gas m =
        Some (inr {| r_success := false; r_gas_used := msg_gas message;
                     r_gas_remaining := 0; r_return_data := []; r_logs := [];
                     r_error := Some (Raised OutOfGasError);
                     r_created_address := None |}, m))
    /\ (2 <= gas -> MAX_DEPTH <= len (mc_stack m) ->
        run_loop (S fuel) Shanghai env message jd pc gas m =
        Some (inr {| r_success := false; r_gas_used := msg_gas message;
                     r_gas_remaining := 0; r_return_data := []; r_logs := [];
                     r_error := Some (Raised StackOverflowError);
                     r_created_address := None |}, m)).
Proof.
  intros fuel env message jd pc gas m [_ Hpc] Hbyte.
  apply Z.ltb_lt in Hpc. split; [| split; [| split]].
  - intros fork Hfork. rewrite run_loop_S, Hpc.
    rewrite dispatch_push0_rejected by (destruct Hfork; subst; congruence).
    reflexivity.
  - intros Hgas Hdepth.
    pose proof (dispatch_push0_shanghai (execute fuel Shanghai env) env message jd
                  pc gas m Hbyte Hgas Hdepth) as Hd.
    split; [exact Hd |].
    rewrite run_loop_S, Hpc, Hd. reflexivity.
  - intros Hgas. rewrite run_loop_S, Hpc.
    rewrite (dispatch_push0_out_of_gas _ env message jd pc gas m Hbyte Hgas).
    reflexivity.
  - intros Hgas Hdepth. rewrite run_loop_S, Hpc.
    rewrite (dispatch_push0_overflow _ env message jd pc gas m Hbyte Hgas Hdepth).
    reflexivity.
Qed.

(** C6 as stated fails under Shanghai.  On the one-byte code 5F with 1
    gas the turn raises the out-of-gas error: nothing is pushed, no 2 gas
    are charged, and the frame ends as a failure with its gas used up.
    With 1024 items on the stack and 10 gas the turn raises the
    stack-overflow error. *)
Lemma push0_shanghai_not_always_pushed :
  dispatch (execute 1 Shanghai Scenario.env) Shanghai Scenario.env
           (Scenario.frame_of_A 1 [0x5F]) ∅ 0 1 (new_interpreter empty_state)
  = Some (inl OutOfGasError, new_interpreter empty_state)
  /\ execute 2 Shanghai Scenario.env (Scenario.frame_of_A 1 [0x5F])
             (new_interpreter empty_state)
     = Some (inr {| r_success := false; r_gas_used := 1; r_gas_remaining := 0;
                    r_return_data := []; r_logs := [];
                    r_error := Some (Raised OutOfGasError);
                    r_created_address := None |}, new_interpreter empty_state)
  /\ dispatch (execute 1 Shanghai Scenario.env) Shanghai Scenario.env
              (Scenario.frame_of_A 10 [0x5F]) ∅ 0 10 Scenario.full_stack
     = Some (inl StackOverflowError, Scenario.full_stack)
  /\ dispatch (execute 1 Shanghai Scenario.env) Shanghai Scenario.env
              (Scenario.frame_of_A 1 [0x5F]) ∅ 0 1 (new_interpreter empty_state)
     <> Some (inr {| or_pc := 0 + 1; or_gas_remaining := 1 - 2;
                     or_done := false; or_success := true; or_return_data := [];
                     or_error := None; or_created_address := None |},
              pushed_zero (new_interpreter empty_state)).
Proof.
  repeat split; try (vm_compute; reflexivity).
  vm_compute. discriminate.
Qed.

(** The theorem at work on the one-byte code 5F with 10 gas and an empty
    stack. *)
Lemma push0_by_fork_witness :
  run_loop 2 Frontier Scenario.env (Scenario.frame_of_A 10 [0x5F]) ∅ 0 10
           (new_interpreter empty_state)
  = Some (inr {| r_success := false; r_gas_used := 10; r_gas_remaining := 0;
                 r_return_data := []; r_logs := [];
                 r_error :=
                   Some (Raised (InvalidOpcodeError "PUSH0 not supported in Frontier"));
                 r_created_address := None |}, new_interpreter empty_state)
  /\ run_loop 2 Shanghai Scenario.env (Scenario.frame_of_A 10 [0x5F]) ∅ 0 10
              (new_interpreter empty_state)
     = run_loop 1 Shanghai Scenario.env (Scenario.frame_of_A 10 [0x5F]) ∅ (0 + 1) (10 - 2)
                (pushed_zero (new_interpreter empty_state)).
Proof.
  destruct (push0_by_fork 1 Scenario.env (Scenario.frame_of_A 10 [0x5F]) ∅ 0 10
              (new_interpreter empty_state)) as [Hold [Hnew _]].
  - vm_compute. split; [discriminate | reflexivity].
  - reflexivity.
  - split.
    + apply (Hold Frontier). left. reflexivity.
    + apply Hnew.
      * vm_compute. discriminate.
      * vm_compute. reflexivity.
Defined.

(** ** The operand stack through [_handle_call] *)

Lemma stack_le_ret {A} (a : A) : stack_le (ret a).
Proof. intros m r m' H. inversion H. lia. Qed.

Lemma stack_le_raise {A} (e : exn) : stack_le (@raise A e).
Proof. intros m r m' H. inversion H. lia. Qed.

Lemma stack_le_read {A} (f : Machine -> A) : stack_le (read f).
Proof. intros m r m' H. inversion H. lia. Qed.

Lemma stack_le_bind {A B} (c : M A) (k : A -> M B) :
  stack_le c -> (forall a, stack_le (k a)) -> stack_le (bind c k).
Proof.
  intros Hc Hk m r m'' H. unfold bind in H.
  destruct (c m) as [[[e | a] m'] |] eqn:E; try discriminate.
  - inversion H; subst. exact (Hc _ _ _ E).
  - pose proof (Hc _ _ _ E). pose proof (Hk a _ _ _ H). lia.
Qed.

Lemma stack_le_set_memory d : stack_le (set_memory d).
Proof. intros m r m' H. inversion H. simpl. lia. Qed.

Lemma stack_le_set_state s : stack_le (set_state s).
Proof. intros m r m' H. inversion H. simpl. lia. Qed.

Lemma stack_le_update_state f : stack_le (update_state f).
Proof. intros m r m' H. unfold update_state in H. exact (stack_le_set_state _ _ _ _ H). Qed.

Lemma stack_le_pop : stack_le pop.
Proof.
  intros m r m' H. unfold pop, bind, read in H.
  destruct (mc_stack m) as [| v s] eqn:E.
  - inversion H; subst. rewrite E. lia.
  - inversion H; subst. unfold len. simpl. lia.
Qed.


Lemma stack_le_charge g c : stack_le (_charge_gas g c).
Proof. unfold _charge_gas. destruct (g <? c); [apply stack_le_raise | apply stack_le_ret]. Qed.

Lemma stack_le_address a : stack_le (address_of_word a).
Proof.
  unfold address_of_word. destruct (to_bytes_big 20 a);
    [apply stack_le_ret | apply stack_le_raise].
Qed.

Lemma stack_le_expansion_cost o s : stack_le (expansion_cost o s).
Proof.
  unfold expansion_cost. apply stack_le_bind; [apply stack_le_read |].
  intros ?. apply stack_le_ret.
Qed.

Lemma stack_le_mem_load o s : stack_le (mem_load o s).
Proof.
  unfold mem_load. destruct (s =? 0); [apply stack_le_ret |].
  apply stack_le_bind; [apply stack_le_read | intros ?].
  apply stack_le_bind; [apply stack_le_set_memory | intros ?]. apply stack_le_ret.
Qed.

Create HintDb stack_le.
#[local] Hint Resolve stack_le_ret stack_le_raise stack_le_read stack_le_pop
  stack_le_set_memory stack_le_update_state stack_le_charge stack_le_address
  stack_le_expansion_cost stack_le_mem_load : stack_le.



(** A nested frame leaves the caller's stack, memory and logs alone. *)
Lemma execute_with_frame loop message m r m' :
  execute_with loop message m = Some (r, m') ->
  mc_stack m' = mc_stack m /\ mc_memory m' = mc_memory m /\ mc_logs m' = mc_logs m.
Proof.
  unfold execute_with. destruct (MAX_CALL_DEPTH <? msg_depth message).
  - intros H. inversion H. auto.
  - destruct (loop _ _ _ _ _) as [[r0 m0] |]; [| discriminate].
    intros H. inversion H. auto.
Qed.

Lemma push_ok v m :
  len (mc_stack m) < MAX_DEPTH ->
  push v m =
  Some (inr tt, {| mc_stack := u256 v :: mc_stack m; mc_memory := mc_memory m;
                   mc_logs := mc_logs m; mc_state := mc_state m;
                   mc_return_data := mc_return_data m |}).
Proof.
  intros H. apply Z.leb_gt in H. unfold push, bind, read. now rewrite H.
Qed.

Lemma mem_store_ok offset data m :
  mem_store offset data m =
  Some (inr tt, {| mc_stack := mc_stack m;
                   mc_memory :=
                     if is_empty data then mc_memory m
                     else splice (expand (mc_memory m) offset (len data)) offset data;
                   mc_logs := mc_logs m; mc_state := mc_state m;
                   mc_return_data := mc_return_data m |}).
Proof.
  unfold mem_store. destruct (is_empty data).
  - unfold ret. now destruct m.
  - reflexivity.
Qed.





Lemma charge_inv g c m g' m' :
  _charge_gas g c m = Some (inr g', m') -> g' = g - c /\ c <= g /\ m' = m.
Proof.
  unfold _charge_gas. destruct (g <? c) eqn:E; [discriminate |].
  intros H. inversion H. apply Z.ltb_ge in E. auto.
Qed.










(** ** Gas accounting of a creation transaction *)

(** A deployment that goes through: the result [deploy] rebuilds already
    counts from the transaction's gas limit, and [settle] adds the
    intrinsic gas to it again.  With [frame_used] the gas the init-code
    frame consumed out of [tx.gas - intrinsic], the reported gas_used is
    twice the intrinsic gas plus [frame_used] plus the deposit. *)
Lemma deployed_creation_gas_used fork tx env intrinsic contract state result :
  r_success result = true ->
  (fork = Shanghai -> len (r_return_data result) <= 24576) ->
  len (r_return_data result) * 200 <= r_gas_remaining result ->
  let frame_used := (tx_gas tx - intrinsic) - r_gas_remaining result in
  let deposit := len (r_return_data result) * 200 in
  let '(state', result') := deploy fork tx contract state result in
  r_gas_used (snd (settle tx env intrinsic state' result'))
  = 2 * intrinsic + frame_used + deposit.
Proof.
  intros Hok Hsize Hgas. unfold deploy.
  assert (Hlarge : match fork with
                   | Shanghai => 24576 <? len (r_return_data result)
                   | _ => false
                   end = false).
  { destruct fork; try reflexivity. apply Z.ltb_ge. now apply Hsize. }
  rewrite Hlarge.
  assert (Hg : G_CODEDEPOSIT (gas_schedule_of fork) = 200) by now destruct fork.
  rewrite Hg. apply Z.leb_le in Hgas. rewrite Hgas.
  unfold settle. simpl. lia.
Qed.

(** C2 on the code.  The creation transaction of the repository's own
    test (gas limit 100000) succeeds; its intrinsic gas is 53552, its
    init-code frame uses 18 gas and returns 32 bytes (deposit 6400), so the
    claim's gas_used is 59970.  [state_transition] reports 113522, the
    intrinsic gas counted twice, which is above the gas limit; the
    reported gas_remaining is negative and the sender pays for 113522. *)
Lemma creation_gas_used_exceeds_limit :
  transaction_intrinsic_gas FrontierGasSchedule CreationScenario.init_code true = 53552
  /\ CreationScenario.frame_summary CreationScenario.frame = Some (true, 18, 32)
  /\ tx_gas CreationScenario.tx = 100000
  /\ CreationScenario.summary CreationScenario.outcome
     = Some (true, 113522, -13522, 10 ^ 18 - 113522).
Proof. repeat split; vm_compute; reflexivity. Qed.

(** ** The hash primitive *)

(** C3 on the code.  The hash the source computes, [hashlib.sha3_256],
    is FIPS-202 SHA3-256: on the empty byte string it gives 0xa7ff...434a,
    not the Keccak-256 vector 0xc5d2...a470 (which the same sponge gives
    with the pre-FIPS padding byte).  The SHA3 opcode run on an empty range
    pushes the SHA3-256 value. *)
Lemma sha3_opcode_is_not_keccak256 :
  from_bytes_big (hashlib_sha3_256 [])
  = 0xa7ffc6f8bf1ed76651c14756a061d662f580ff4de43b49fa82d80a4b80f8434a
  /\ from_bytes_big (Keccak.keccak256 [])
     = 0xc5d2460186f7233c927e7db2dcc703c0e500b653ca82273b7bfad8045d85a470
  /\ hashlib_sha3_256 [] <> Keccak.keccak256 []
  /\ option_map (fun '(_, m) => mc_stack m)
       (dispatch (execute 1 Frontier Scenario.env) Frontier Scenario.env
                 (Scenario.frame_of_A 100 [0x20]) ∅ 0 100
                 {| mc_stack := [0; 0]; mc_memory := []; mc_logs := [];
                    mc_state := empty_state; mc_return_data := [] |})
     = Some [0xa7ffc6f8bf1ed76651c14756a061d662f580ff4de43b49fa82d80a4b80f8434a].
Proof.
  repeat split; try (vm_compute; reflexivity).
  vm_compute. discriminate.
Qed.

(** ** The call stipend *)

Lemma pop_head m v m' :
  pop m = Some (inr v, m') -> head (mc_stack m) = Some v.
Proof.
  unfold pop, bind, read. destruct (mc_stack m); [discriminate |].
  intros H. inversion H. reflexivity.
Qed.

(** Whenever a value-bearing CALL reaches its sub-frame, the sub-frame is
    given min(gas-hint, all-but-one-64th) plus the stipend, and the caller
    is left with its gas after the upfront cost minus all of that, the
    stipend included. *)
Lemma value_call_takes_stipend_from_caller gs message gas m plan m1 :
  call_prepare gs message gas CT_CALL m = Some (inr (Invoke plan), m1) ->
  0 < msg_value (cp_message plan) ->
  exists hint upfront,
    head (mc_stack m) = Some hint
    /\ upfront <= gas
    /\ msg_gas (cp_message plan)
       = Z.min hint (gas - upfront - (gas - upfront) / 64) + G_CALLSTIPEND gs
    /\ cp_gas_remaining plan
       = gas - upfront - Z.min hint (gas - upfront - (gas - upfront) / 64)
         - G_CALLSTIPEND gs.
Proof.
  intros H Hv. unfold call_prepare in H.
  apply bind_inv in H as (hint & ma & Hpop & H).
  apply bind_inv in H as (addr & mb & _ & H).
  apply bind_inv in H as (value & mc & _ & H).
  apply bind_inv in H as (ao & md & _ & H).
  apply bind_inv in H as (asz & me & _ & H).
  apply bind_inv in H as (ro & mf & _ & H).
  apply bind_inv in H as (rs & mg & _ & H).
  apply bind_inv in H as (address & mh & _ & H).
  apply bind_inv in H as (ci & mi & _ & H).
  apply bind_inv in H as (co & mj & _ & H).
  apply bind_inv in H as (st & mk & _ & H).
  apply bind_inv in H as (g' & ml & Hc & H).
  apply charge_inv in Hc as (Hg' & Hcost & _).
  exists hint, (call_cost gs value (account_exists st address) + Z.max ci co).
  rewrite <- Hg'. split; [exact (pop_head _ _ _ Hpop) |]. split; [exact Hcost |].
  destruct (msg_is_static message && is_call CT_CALL && (0 <? value));
    [discriminate |].
  apply bind_inv in H as (st' & mn & _ & H).
  destruct (is_call CT_CALL && (0 <? value)
            && (get_balance st' (msg_target message) <? value));
    [discriminate |].
  apply bind_inv in H as (call_data & mo & _ & H).
  apply bind_inv in H as (st'' & mp & _ & H).
  apply bind_inv in H as (u & mq & _ & H).
  inversion H; subst plan; clear H. simpl in Hv |- *.
  apply Z.ltb_lt in Hv. rewrite Hv. simpl. split; [reflexivity | lia].
Qed.

(** C4 on the code.  A value-bearing CALL with gas-hint 0 costs 9040 up
    front (CALL_BASE + CALL_VALUE, B exists) and no memory; by the claim
    the caller is left with 100000 - 9040 - min(0, cap) = 90960 whatever
    the sub-frame does with its 2300 stipend.  The code takes the stipend
    out of the caller's gas with the rest of the forwarded gas: the
    sub-frame gets 2300, the caller keeps 88660 and, the sub-frame having
    burnt everything, ends the call with 88660. *)
Lemma call_stipend_charged_to_caller :
  call_cost FrontierGasSchedule 1 true = 9040
  /\ 100000 - 9040 - Z.min 0 (90960 - 90960 / 64) = 90960
  /\ StipendScenario.forwarded_and_kept (StipendScenario.prepared CT_CALL)
     = Some (2300, 88660)
  /\ StipendScenario.gas_after StipendScenario.call = Some 88660.
Proof. repeat split; vm_compute; reflexivity. Qed.

(** The same operands under CALLCODE: no stipend is added at all. *)
Lemma callcode_gets_no_stipend :
  StipendScenario.forwarded_and_kept (StipendScenario.prepared CT_CALLCODE)
  = Some (0, 90960).
Proof. vm_compute. reflexivity. Qed.

(** The stipend taken from a caller with less than 2300 gas left drives
    its gas below zero; a frame that ends there reports more gas used than
    it was given, and so does the transaction: 32361 used of 30161. *)
Lemma stipend_overdraws_transaction_gas :
  tx_gas StipendTransaction.tx = 30161
  /\ StipendTransaction.gas_used_of
       (state_transition 100 Frontier StipendTransaction.state StipendTransaction.tx
                         Scenario.env)
     = Some (true, 32361).
Proof. split; vm_compute; reflexivity. Qed.

(** ** Shanghai validation of a creation transaction *)

(** The part of the initcode rule that the code does enforce: a Shanghai
    creation with more than 49152 bytes of init code never gets past
    validation; the State comes back as it went in and no gas is used. *)
Lemma shanghai_large_initcode_rejected fuel state tx env :
  tx_to tx = None ->
  49152 < len (tx_data tx) ->
  exists e,
    state_transition fuel Shanghai state tx env
    = Some (inr (state,
                 {| r_success := false; r_gas_used := 0; r_gas_remaining := 0;
                    r_return_data := []; r_logs := []; r_error := Some e;
                    r_created_address := None |})).
Proof.
  intros Hto Hlen. unfold state_transition, copy.
  assert (Hv : exists e, validate_transaction Shanghai tx state = Some e).
  { unfold validate_transaction. rewrite Hto.
    destruct (negb _); [eauto |].
    destruct (tx_gas tx <? _); [eauto |].
    destruct (balance _ <? _); [eauto |].
    apply Z.ltb_lt in Hlen. rewrite Hlen. simpl. eauto. }
  destruct Hv as [e Hv]. rewrite Hv. now exists e.
Qed.

(** C5 on the code.  The gas limit 53004 is below the full intrinsic cost
    53006, yet Shanghai's [validate_transaction] accepts the transaction:
    it compares with the base intrinsic only.  [state_transition] then
    debits the sender, bumps the nonce, runs the frame with -2 gas and
    ends with a deployment failure: gas_used is 53004, not 0, and the
    State differs from the input (nonce 1, balance down by 53004). *)
Lemma shanghai_undergassed_creation_not_rejected :
  tx_gas InitcodeScenario.tx < InitcodeScenario.full_intrinsic InitcodeScenario.tx
  /\ validate_transaction Shanghai InitcodeScenario.tx Scenario.funded_state = None
  /\ InitcodeScenario.summary InitcodeScenario.outcome
     = Some (false, 53004, Some DeploymentOutOfGas, 1, 10 ^ 18 - 53004)
  /\ nonce (get_account Scenario.funded_state Scenario.addr_A) = 0.
Proof. repeat split; vm_compute; reflexivity. Qed.

(** * Further properties of the code *)

(** ** The stack *)

Lemma u256_mod_eq v : u256 v = v mod 2 ^ 256.
Proof.
  unfold u256, MAX_U256. change (2 ^ 256 - 1) with (Z.ones 256).
  now rewrite Z.land_ones by lia.
Qed.

Lemma u256_range v : 0 <= u256 v < 2 ^ 256.
Proof.
  unfold u256, MAX_U256. change (2 ^ 256 - 1) with (Z.ones 256).
  rewrite Z.land_ones by lia. apply Z.mod_pos_bound. lia.
Qed.

Lemma len_cons {A} (x : A) l : len (x :: l) = len l + 1.
Proof. unfold len. simpl length. lia. Qed.

Lemma len_nonneg {A} (l : list A) : 0 <= len l.
Proof. unfold len. lia. Qed.

Lemma keeps_ret {A} (a : A) : keeps_stack_ok (ret a).
Proof. intros m r m' H E. inversion E; subst. exact H. Qed.

Lemma keeps_raise {A} e : keeps_stack_ok (@raise A e).
Proof. intros m r m' H E. inversion E; subst. exact H. Qed.

Lemma keeps_read {A} (f : Machine -> A) : keeps_stack_ok (read f).
Proof. intros m r m' H E. inversion E; subst. exact H. Qed.

Lemma keeps_bind {A B} (c : M A) (k : A -> M B) :
  keeps_stack_ok c -> (forall a, keeps_stack_ok (k a)) -> keeps_stack_ok (bind c k).
Proof.
  intros Hc Hk m r m'' H E. unfold bind in E.
  destruct (c m) as [[[e | a] m'] |] eqn:Ec; try discriminate.
  - inversion E; subst. exact (Hc _ _ _ H Ec).
  - exact (Hk a _ _ _ (Hc _ _ _ H Ec) E).
Qed.

Lemma keeps_push v : keeps_stack_ok (push v).
Proof.
  intros m r m' [Hlen Hall] E. unfold push, bind, read in E.
  destruct (MAX_DEPTH <=? len (mc_stack m)) eqn:Ed.
  - inversion E; subst. now split.
  - inversion E; subst. apply Z.leb_gt in Ed. split; simpl.
    + rewrite len_cons. lia.
    + constructor; [apply u256_range | exact Hall].
Qed.

Lemma keeps_pop : keeps_stack_ok pop.
Proof.
  intros m r m' [Hlen Hall] E. unfold pop, bind, read in E.
  destruct (mc_stack m) as [| v s] eqn:Es.
  - inversion E; subst. unfold stack_ok. rewrite Es. now split.
  - inversion E; subst. rewrite len_cons in Hlen. inversion Hall; subst.
    split; simpl; [lia | assumption].
Qed.

Lemma Forall_nth_range (s : list Z) n :
  Forall (fun w => 0 <= w < 2 ^ 256) s -> 0 <= nth n s 0 < 2 ^ 256.
Proof.
  intros H. revert n. induction H; intros [| n]; simpl; try lia; auto.
Qed.

Lemma keeps_dup n : keeps_stack_ok (dup n).
Proof.
  intros m r m' [Hlen Hall] E. unfold dup in E.
  destruct ((n <? 1) || (16 <? n)); [inversion E; subst; now split |].
  unfold bind, read in E.
  destruct (len (mc_stack m) <? n); [inversion E; subst; now split |].
  destruct (MAX_DEPTH <=? len (mc_stack m)) eqn:Ed; [inversion E; subst; now split |].
  inversion E; subst. apply Z.leb_gt in Ed. split; simpl.
  - rewrite len_cons. lia.
  - constructor; [now apply Forall_nth_range | exact Hall].
Qed.

Lemma keeps_swap n : keeps_stack_ok (swap n).
Proof.
  intros m r m' [Hlen Hall] E. unfold swap in E.
  destruct ((n <? 1) || (16 <? n)) eqn:En; [inversion E; subst; now split |].
  apply orb_false_elim in En as [En1 _]. apply Z.ltb_ge in En1.
  unfold bind, read in E.
  destruct (len (mc_stack m) <? n + 1) eqn:El; [inversion E; subst; now split |].
  apply Z.ltb_ge in El.
  destruct (mc_stack m) as [| top rest] eqn:Es; [inversion E; subst; unfold stack_ok; rewrite Es; now split |].
  inversion E; subst; clear E. inversion Hall as [| ? ? Htop Hrest]; subst.
  rewrite len_cons in Hlen, El.
  assert (Hk : (Z.to_nat (n - 1) < length rest)%nat) by (unfold len in El; lia).
  split; simpl.
  - rewrite len_cons. unfold len in *. rewrite length_app. simpl.
    rewrite length_firstn, length_skipn. lia.
  - constructor; [now apply Forall_nth_range |].
    apply Forall_app. split.
    + now apply Forall_take.
    + constructor; [exact Htop | now apply Forall_drop].
Qed.

(** X1. The four stack operations the interpreter uses keep the stack
    within 1024 words of 256 bits, whether they return or raise. *)
Theorem stack_operations_keep_invariant :
  forall (v n : Z),
    keeps_stack_ok (push v) /\ keeps_stack_ok pop
    /\ keeps_stack_ok (dup n) /\ keeps_stack_ok (swap n).
Proof.
  intros v n.
  split; [apply keeps_push |]. split; [apply keeps_pop |].
  split; [apply keeps_dup | apply keeps_swap].
Qed.

Lemma machine_eta m :
  {| mc_stack := mc_stack m; mc_memory := mc_memory m; mc_logs := mc_logs m;
     mc_state := mc_state m; mc_return_data := mc_return_data m |} = m.
Proof. now destruct m. Qed.

(** X2. A push below the limit followed by a pop gives back the pushed
    value reduced modulo 2^256 and the machine as it was. *)
Theorem push_then_pop :
  forall (v : Z) (m : Machine),
    len (mc_stack m) < MAX_DEPTH ->
    (push v ;; pop) m = Some (inr (v mod 2 ^ 256), m).
Proof.
  intros v m H. erewrite bind_inr by (apply push_ok; exact H).
  unfold pop, bind, read, set_stack, ret. simpl.
  rewrite machine_eta. f_equal. f_equal. f_equal. unfold u256, MAX_U256. change (2 ^ 256 - 1) with (Z.ones 256). now rewrite Z.land_ones by lia.
Qed.

(** X3. SWAPn is its own inverse. *)
Theorem swap_twice :
  forall (n : Z) (m : Machine),
    1 <= n <= 16 -> n < len (mc_stack m) ->
    (swap n ;; swap n) m = Some (inr tt, m).
Proof.
  intros n m Hn Hlen.
  assert (En : (n <? 1) || (16 <? n) = false).
  { apply orb_false_intro; [apply Z.ltb_ge | apply Z.ltb_ge]; lia. }
  destruct m as [s mem lg st rd]. simpl in Hlen.
  destruct s as [| top rest]; [unfold len in Hlen; simpl in Hlen; lia |].
  rewrite len_cons in Hlen.
  set (k := Z.to_nat (n - 1)).
  assert (Hk : (k < length rest)%nat) by (unfold len in Hlen; lia).
  unfold bind at 1. unfold swap at 1. rewrite En. unfold bind at 1, read at 1. simpl.
  assert (El : (len (top :: rest) <? n + 1) = false)
    by (apply Z.ltb_ge; rewrite len_cons; lia).
  rewrite El. unfold set_stack at 1. simpl. fold k.
  unfold swap. rewrite En. unfold bind, read. simpl. fold k.
  set (rest' := firstn k rest ++ top :: skipn (S k) rest).
  assert (Hl' : length rest' = length rest).
  { unfold rest'. rewrite length_app. simpl. rewrite length_firstn, length_skipn. lia. }
  assert (El' : (len (nth k rest 0 :: rest') <? n + 1) = false).
  { apply Z.ltb_ge. rewrite len_cons. unfold len. rewrite Hl'. unfold len in Hlen. lia. }
  rewrite El'. unfold set_stack. simpl.
  assert (Hf : length (firstn k rest) = k) by (rewrite length_firstn; lia).
  assert (Hnth : nth k rest' 0 = top).
  { unfold rest'. rewrite app_nth2 by lia. rewrite Hf, Nat.sub_diag. reflexivity. }
  assert (Hfirst : firstn k rest' = firstn k rest).
  { unfold rest'. rewrite firstn_app, Hf, Nat.sub_diag. simpl.
    rewrite app_nil_r. apply firstn_all2. lia. }
  assert (Hskip : skipn (S k) rest' = skipn (S k) rest).
  { unfold rest'. rewrite skipn_app, Hf.
    replace (S k - k)%nat with 1%nat by lia. simpl.
    rewrite skipn_all2 by lia. reflexivity. }
  rewrite Hnth, Hfirst, Hskip.
  assert (Hrest : firstn k rest ++ nth k rest 0 :: skipn (S k) rest = rest).
  { clear -Hk. revert rest Hk. induction k; intros [| x rest] Hk; simpl in *; try lia.
    - reflexivity.
    - f_equal. apply IHk. lia. }
  rewrite Hrest. reflexivity.
Qed.

Lemma nth_replace_nth n v s :
  (n < length s)%nat -> nth n (replace_nth n v s) 0 = v.
Proof.
  revert n. induction s as [| x s IH]; intros [| n] H; simpl in *; try lia.
  apply IH. lia.
Qed.

Lemma length_replace_nth n v s : length (replace_nth n v s) = length s.
Proof.
  revert n. induction s as [| x s IH]; intros [| n]; simpl; auto.
Qed.

(** X4. [set] at a depth that is present, then [peek] at that depth, reads
    the value written, reduced modulo 2^256; the depth of the stack is
    unchanged. *)
Theorem set_then_peek :
  forall (d v : Z) (m : Machine),
    0 <= d < len (mc_stack m) ->
    exists m',
      (stack_set d v ;; peek d) m = Some (inr (v mod 2 ^ 256), m')
      /\ len (mc_stack m') = len (mc_stack m).
Proof.
  intros d v m [Hd0 Hd]. rewrite <- (u256_mod_eq v).
  assert (E1 : (len (mc_stack m) <=? d) = false) by (apply Z.leb_gt; lia).
  assert (E2 : (0 <=? d) = true) by (apply Z.leb_le; lia).
  unfold bind at 1. unfold stack_set. unfold bind at 1, read at 1.
  rewrite E1, E2. unfold set_stack.
  unfold peek, bind, read. simpl.
  assert (El : len (replace_nth (Z.to_nat d) (u256 v) (mc_stack m)) = len (mc_stack m)).
  { unfold len. now rewrite length_replace_nth. }
  rewrite El, E1, E2. eexists. split.
  - unfold ret. rewrite nth_replace_nth by (unfold len in Hd; lia).
    reflexivity.
  - simpl. exact El.
Qed.

(** ** Words and the State *)

(** X5. [u256] wraps every integer, negative ones included, into the word
    range, and is reduction modulo 2^256. *)
Theorem u256_wraps : forall v : Z, 0 <= u256 v < 2 ^ 256 /\ u256 v = v mod 2 ^ 256.
Proof.
  intros v. rewrite u256_mod_eq. split; [| reflexivity].
  apply Z.mod_pos_bound. lia.
Qed.

(** X6. Reading a word as a signed number and back gives the word; the
    signed reading lies in the two's-complement range. *)
Theorem signed_round_trip :
  forall v : Z, 0 <= v < 2 ^ 256 ->
    - 2 ^ 255 <= unsigned_to_signed v < 2 ^ 255
    /\ signed_to_unsigned (unsigned_to_signed v) = v.
Proof.
  intros v Hv. unfold unsigned_to_signed, signed_to_unsigned.
  destruct (v <? 2 ^ 255) eqn:E.
  - apply Z.ltb_lt in E. destruct (0 <=? v) eqn:E'; [lia |].
    apply Z.leb_gt in E'. lia.
  - apply Z.ltb_ge in E.
    destruct (0 <=? v - 2 ^ 256) eqn:E'.
    + apply Z.leb_le in E'. lia.
    + lia.
Qed.

(** The other way round, from a signed number in range. *)
Theorem unsigned_round_trip :
  forall s : Z, - 2 ^ 255 <= s < 2 ^ 255 ->
    0 <= signed_to_unsigned s < 2 ^ 256
    /\ unsigned_to_signed (signed_to_unsigned s) = s.
Proof.
  intros s Hs. unfold unsigned_to_signed, signed_to_unsigned.
  destruct (0 <=? s) eqn:E.
  - apply Z.leb_le in E. destruct (s <? 2 ^ 255) eqn:E'; [lia |].
    apply Z.ltb_ge in E'. lia.
  - apply Z.leb_gt in E.
    destruct (s + 2 ^ 256 <? 2 ^ 255) eqn:E'.
    + apply Z.ltb_lt in E'. lia.
    + lia.
Qed.

Lemma get_account_set_account s a acc a' :
  get_account (set_account s a acc) a' =
  if decide (a = a') then acc else get_account s a'.
Proof.
  unfold get_account, set_account. simpl.
  rewrite lookup_insert. destruct (decide (a = a')); reflexivity.
Qed.

(** X7. A storage slot reads back what was written to it, a written 0
    (which deletes the entry) included. *)
Theorem storage_read_your_write :
  forall (s : State) (a : Address) (k v : Z),
    get_storage (set_storage s a k v) a k = v.
Proof.
  intros s a k v. unfold get_storage, set_storage.
  rewrite get_account_set_account. rewrite decide_True by reflexivity. simpl.
  destruct (v =? 0) eqn:E.
  - apply Z.eqb_eq in E. subst. now rewrite lookup_delete_eq.
  - now rewrite lookup_insert_eq.
Qed.

(** X8. Writing a storage slot changes nothing else: every other slot
    of every account, and every balance, code and nonce, reads as before. *)
Theorem set_storage_frame :
  forall (s : State) (a a' : Address) (k k' v : Z),
    (a', k') <> (a, k) ->
    get_storage (set_storage s a k v) a' k' = get_storage s a' k'
    /\ get_balance (set_storage s a k v) a' = get_balance s a'
    /\ get_code (set_storage s a k v) a' = get_code s a'
    /\ nonce (get_account (set_storage s a k v) a') = nonce (get_account s a').
Proof.
  intros s a a' k k' v Hne.
  unfold get_storage, get_balance, get_code, set_storage.
  rewrite get_account_set_account.
  destruct (decide (a = a')) as [-> | Hna]; simpl; [| auto].
  repeat split.
  assert (k <> k') by congruence.
  destruct (v =? 0).
  - now rewrite lookup_delete_ne.
  - now rewrite lookup_insert_ne.
Qed.

(** X9. [set_balance] sets the balance of its address and nothing else:
    other balances, and the code, nonce and storage of every account, are
    as before. *)
Theorem set_balance_only_balance :
  forall (s : State) (a a' : Address) (b : Z),
    get_balance (set_balance s a b) a' = (if decide (a = a') then b else get_balance s a')
    /\ get_code (set_balance s a b) a' = get_code s a'
    /\ nonce (get_account (set_balance s a b) a') = nonce (get_account s a')
    /\ (forall k, get_storage (set_balance s a b) a' k = get_storage s a' k).
Proof.
  intros s a a' b.
  unfold get_storage, get_balance, get_code, set_balance.
  rewrite get_account_set_account.
  destruct (decide (a = a')) as [-> | Hna]; simpl; auto.
Qed.

(** X10. An account that [account_exists] denies reads as the default:
    balance 0, no code, nonce 0. *)
Theorem absent_account_reads_default :
  forall (s : State) (a : Address),
    account_exists s a = false ->
    get_balance s a = 0 /\ get_code s a = [] /\ nonce (get_account s a) = 0.
Proof.
  intros s a H. unfold account_exists in H.
  unfold get_balance, get_code, get_account.
  destruct (accounts s !! a) as [acc |]; simpl; [| auto].
  apply orb_false_elim in H as [H Hc]. apply orb_false_elim in H as [Hn Hb].
  apply negb_false_iff in Hn, Hb, Hc.
  apply Z.eqb_eq in Hn, Hb.
  destruct (code acc); [auto | discriminate].
Qed.

(** ** The stack through every opcode *)

(** A computation that does not touch the stack at all. *)
Lemma keeps_same_stack {A} (c : M A) :
  (forall m r m', c m = Some (r, m') -> mc_stack m' = mc_stack m) ->
  keeps_stack_ok c.
Proof.
  intros H m r m' Hok E. unfold stack_ok. rewrite (H _ _ _ E). exact Hok.
Qed.

Lemma keeps_set_memory d : keeps_stack_ok (set_memory d).
Proof. apply keeps_same_stack. intros m r m' E. now inversion E. Qed.
Lemma keeps_set_logs l : keeps_stack_ok (set_logs l).
Proof. apply keeps_same_stack. intros m r m' E. now inversion E. Qed.
Lemma keeps_set_state s : keeps_stack_ok (set_state s).
Proof. apply keeps_same_stack. intros m r m' E. now inversion E. Qed.
Lemma keeps_set_return_data d : keeps_stack_ok (set_return_data d).
Proof. apply keeps_same_stack. intros m r m' E. now inversion E. Qed.
Lemma keeps_update_state f : keeps_stack_ok (update_state f).
Proof. apply keeps_same_stack. intros m r m' E. now inversion E. Qed.

Create HintDb keeps.
#[local] Hint Resolve keeps_ret keeps_raise keeps_read keeps_push keeps_pop keeps_dup
  keeps_swap keeps_set_memory keeps_set_logs keeps_set_state keeps_set_return_data
  keeps_update_state : keeps.

Ltac keeps_step :=
  first
    [ solve [auto with keeps]
    | apply keeps_bind; [| intros ?]
    | match goal with
      | |- keeps_stack_ok (if ?b then _ else _) => destruct b
      | |- keeps_stack_ok (match ?x with _ => _ end) => destruct x
      end ].

Lemma keeps_charge g c : keeps_stack_ok (_charge_gas g c).
Proof. unfold _charge_gas. repeat keeps_step. Qed.
Lemma keeps_address a : keeps_stack_ok (address_of_word a).
Proof. unfold address_of_word. repeat keeps_step. Qed.
Lemma keeps_lift {A} (r : exn + A) : keeps_stack_ok (lift r).
Proof. unfold lift. repeat keeps_step. Qed.
Lemma keeps_expansion_cost o s : keeps_stack_ok (expansion_cost o s).
Proof. unfold expansion_cost. repeat keeps_step. Qed.
Lemma keeps_mem_load o s : keeps_stack_ok (mem_load o s).
Proof. unfold mem_load. repeat keeps_step. Qed.
Lemma keeps_mem_store o d : keeps_stack_ok (mem_store o d).
Proof. unfold mem_store. repeat keeps_step. Qed.
Lemma keeps_load_word o : keeps_stack_ok (load_word o).
Proof. unfold load_word. apply keeps_bind; [apply keeps_mem_load | intros ?; auto with keeps]. Qed.
Lemma keeps_store_word o v : keeps_stack_ok (store_word o v).
Proof. unfold store_word. apply keeps_mem_store. Qed.
Lemma keeps_store_byte o v : keeps_stack_ok (store_byte o v).
Proof. unfold store_byte. repeat keeps_step. Qed.
Lemma keeps_msize : keeps_stack_ok msize.
Proof. unfold msize. repeat keeps_step. Qed.
Lemma keeps_continue_at pc g : keeps_stack_ok (continue_at pc g).
Proof. apply keeps_ret. Qed.
Lemma keeps_finish ok g d : keeps_stack_ok (finish ok g d).
Proof. apply keeps_ret. Qed.
Lemma keeps_pop_topics n : keeps_stack_ok (pop_topics n).
Proof. induction n; simpl; repeat keeps_step. Qed.

#[local] Hint Resolve keeps_charge keeps_address keeps_lift keeps_expansion_cost keeps_mem_load
  keeps_mem_store keeps_load_word keeps_store_word keeps_store_byte keeps_msize
  keeps_continue_at keeps_finish keeps_pop_topics : keeps.

Section KeepsOpcodes.
Variable execute : Message -> M ExecutionResult.
Hypothesis keeps_execute : forall msg, keeps_stack_ok (execute msg).
Variable gs : GasSchedule.
Variable env : Environment.

Lemma keeps_call_prepare message gas ct : keeps_stack_ok (call_prepare gs message gas ct).
Proof. unfold call_prepare. repeat keeps_step. Qed.

Lemma keeps_call_finish pc plan result : keeps_stack_ok (call_finish pc plan result).
Proof. unfold call_finish. repeat keeps_step. Qed.

Lemma keeps_handle_call pc message gas ct :
  keeps_stack_ok (_handle_call execute gs pc message gas ct).
Proof.
  unfold _handle_call. apply keeps_bind; [apply keeps_call_prepare | intros [g | plan]].
  - repeat keeps_step.
  - apply keeps_bind; [apply keeps_execute | intros ?; apply keeps_call_finish].
Qed.

Lemma keeps_execute_system opcode pc message gas :
  keeps_stack_ok (execute_system execute gs opcode pc message gas).
Proof.
  pose proof keeps_handle_call. pose proof keeps_execute.
  unfold execute_system. repeat keeps_step.
Qed.

Lemma keeps_execute_stack_memory_flow opcode pc code message gas jd :
  keeps_stack_ok (execute_stack_memory_flow execute gs opcode pc code message gas jd).
Proof.
  pose proof keeps_execute_system.
  unfold execute_stack_memory_flow. repeat keeps_step.
Qed.

Lemma keeps_execute_block_info opcode pc code message gas jd :
  keeps_stack_ok (execute_block_info execute gs env opcode pc code message gas jd).
Proof.
  pose proof keeps_execute_stack_memory_flow.
  unfold execute_block_info. cbv zeta. repeat keeps_step.
Qed.

Lemma keeps_execute_environment opcode pc code message gas jd :
  keeps_stack_ok (execute_environment execute gs env opcode pc code message gas jd).
Proof.
  pose proof keeps_execute_block_info.
  unfold execute_environment. cbv zeta. repeat keeps_step.
Qed.

Lemma keeps_execute_opcode opcode pc code message gas jd :
  keeps_stack_ok (_execute_opcode execute gs env opcode pc code message gas jd).
Proof.
  pose proof keeps_execute_environment.
  unfold _execute_opcode. cbv zeta. repeat keeps_step.
Qed.
End KeepsOpcodes.

Lemma keeps_execute_with loop message : keeps_stack_ok (execute_with loop message).
Proof.
  apply keeps_same_stack. intros m r m' E.
  now destruct (execute_with_frame _ _ _ _ _ E).
Qed.

Lemma keeps_dispatch fuel fork env message jd pc gas :
  keeps_stack_ok (dispatch (execute fuel fork env) fork env message jd pc gas).
Proof.
  unfold dispatch.
  destruct (_ =? Opcode.PUSH0).
  - destruct fork; repeat keeps_step.
  - apply keeps_execute_opcode. intros msg. apply keeps_execute_with.
Qed.

(** X11. No turn of the interpreter loop, under any fork and for any
    opcode byte, takes the stack beyond 1024 words or puts a value outside
    the 256-bit range on it, whether the turn returns or raises. *)
Theorem stack_stays_within_limit :
  forall (fuel : nat) (fork : Fork) (env : Environment) (message : Message)
         (jd : gset Z) (pc gas : Z) (m m' : Machine) (r : exn + OpcodeResult),
    stack_ok m -> 0 <= pc < len (msg_code message) ->
    dispatch (execute fuel fork env) fork env message jd pc gas m = Some (r, m') ->
    stack_ok m'.
Proof.
  intros fuel fork env message jd pc gas m m' r Hok _ E.
  exact (keeps_dispatch fuel fork env message jd pc gas m r m' Hok E).
Qed.

(** ** Memory *)

Lemma len_app {A} (l1 l2 : list A) : len (l1 ++ l2) = len l1 + len l2.
Proof. unfold len. rewrite length_app. lia. Qed.

Lemma len_zeros n : 0 <= n -> len (zeros n) = n.
Proof. intros H. unfold len, zeros. rewrite repeat_length. lia. Qed.

Lemma word_size_bounds size : size <= word_size size * 32 < size + 32.
Proof.
  unfold word_size.
  pose proof (Z.div_mod (size + 31) 32 ltac:(lia)).
  pose proof (Z.mod_pos_bound (size + 31) 32 ltac:(lia)). lia.
Qed.

Lemma word_size_mul w : word_size (w * 32) = w.
Proof.
  unfold word_size. replace (w * 32 + 31) with (31 + w * 32) by lia.
  rewrite Z.div_add by lia. reflexivity.
Qed.

Lemma word_size_mono a b : a <= b -> word_size a <= word_size b.
Proof. intros H. unfold word_size. apply Z.div_le_mono; lia. Qed.

(** The length of the buffer after [_expand]. *)
Lemma len_expand d offset size :
  len (expand d offset size) =
  if (size =? 0) || (word_size (offset + size) <=? word_size (len d)) then len d
  else word_size (offset + size) * 32.
Proof.
  unfold expand. destruct (size =? 0); simpl; [reflexivity |].
  destruct (word_size (len d) <? word_size (offset + size)) eqn:E.
  - apply Z.ltb_lt in E.
    destruct (word_size (offset + size) <=? word_size (len d)) eqn:E';
      [apply Z.leb_le in E'; lia |].
    pose proof (word_size_bounds (len d)).
    rewrite len_app, len_zeros by lia. lia.
  - apply Z.ltb_ge in E. apply Z.leb_le in E. now rewrite E.
Qed.

Lemma aligned_word_size n : n mod 32 = 0 -> word_size n * 32 = n.
Proof.
  intros H. apply Z.mod_divide in H; [| lia]. destruct H as [w ->].
  now rewrite word_size_mul.
Qed.

Lemma expand_aligned d offset size :
  len d mod 32 = 0 ->
  len (expand d offset size) mod 32 = 0
  /\ len d <= len (expand d offset size)
  /\ (size <> 0 -> offset + size <= len (expand d offset size)).
Proof.
  intros Ha. rewrite len_expand.
  destruct (size =? 0) eqn:Es; simpl.
  - apply Z.eqb_eq in Es. repeat split; [exact Ha | lia | lia].
  - pose proof (word_size_bounds (offset + size)).
    pose proof (aligned_word_size _ Ha).
    destruct (word_size (offset + size) <=? word_size (len d)) eqn:E.
    + apply Z.leb_le in E. repeat split; [exact Ha | lia | intros _; lia].
    + apply Z.leb_gt in E. repeat split; [apply Z.mod_mul; lia | lia | intros _; lia].
Qed.

Lemma len_firstn_le {A} (l : list A) n : 0 <= n <= len l -> len (firstn (Z.to_nat n) l) = n.
Proof. intros H. unfold len in *. rewrite length_firstn. lia. Qed.

Lemma len_skipn {A} (l : list A) n : 0 <= n <= len l -> len (skipn (Z.to_nat n) l) = len l - n.
Proof. intros H. unfold len in *. rewrite length_skipn. lia. Qed.

Lemma len_splice d a new :
  0 <= a -> a + len new <= len d -> len (splice d a new) = len d.
Proof.
  intros Ha Hb. pose proof (len_nonneg new). unfold splice.
  rewrite !len_app, len_firstn_le, len_skipn by lia. lia.
Qed.

Lemma aligned_mem_load offset size : keeps_memory_aligned (mem_load offset size).
Proof.
  intros m r m' Ha E. unfold mem_load in E.
  destruct (size =? 0); [inversion E; subst; exact Ha |].
  inversion E; subst. unfold memory_aligned. simpl.
  now apply expand_aligned.
Qed.

Lemma aligned_mem_store offset data :
  0 <= offset -> keeps_memory_aligned (mem_store offset data).
Proof.
  intros Ho m r m' Ha E. rewrite mem_store_ok in E. inversion E; subst.
  unfold memory_aligned. simpl.
  destruct data as [| b data]; simpl; [exact Ha |].
  destruct (expand_aligned (mc_memory m) offset (len (b :: data)) Ha) as (H1 & _ & H3).
  rewrite len_splice; [exact H1 | lia |].
  apply H3. rewrite len_cons. pose proof (len_nonneg data). lia.
Qed.

Lemma aligned_store_byte offset value :
  0 <= offset -> keeps_memory_aligned (store_byte offset value).
Proof.
  intros Ho m r m' Ha E. unfold store_byte, bind, read, set_memory in E.
  inversion E; subst. unfold memory_aligned. simpl.
  destruct (expand_aligned (mc_memory m) offset 1 Ha) as (H1 & _ & H3).
  rewrite len_splice; [exact H1 | lia |]. apply H3. lia.
Qed.

(** X12. Memory stays a whole number of 32-byte words: every access of
    the [Memory] interface at a non-negative offset keeps the length a
    multiple of 32. *)
Theorem memory_stays_word_aligned :
  forall (offset size value : Z) (data : bytes),
    0 <= offset ->
    keeps_memory_aligned (mem_load offset size)
    /\ keeps_memory_aligned (load_word offset)
    /\ keeps_memory_aligned (mem_store offset data)
    /\ keeps_memory_aligned (store_word offset value)
    /\ keeps_memory_aligned (store_byte offset value).
Proof.
  intros offset size value data Ho.
  split; [apply aligned_mem_load |].
  split.
  { intros m r m' Ha E. unfold load_word, bind in E.
    destruct (mem_load offset 32 m) as [[[e | a] m0] |] eqn:El; try discriminate;
      inversion E; subst; exact (aligned_mem_load _ _ _ _ _ Ha El). }
  split; [now apply aligned_mem_store |].
  split; [now apply aligned_mem_store | now apply aligned_store_byte].
Qed.

(** X13. A read of [size] bytes returns exactly [size] bytes. *)
Theorem mem_load_length :
  forall (offset size : Z) (m : Machine),
    0 <= offset -> 0 <= size -> memory_aligned m ->
    exists data m',
      mem_load offset size m = Some (inr data, m') /\ len data = size.
Proof.
  intros offset size m Ho Hs Ha. unfold mem_load.
  destruct (size =? 0) eqn:Es.
  - apply Z.eqb_eq in Es. subst. now exists [], m.
  - apply Z.eqb_neq in Es. eexists _, _. split; [reflexivity |].
    destruct (expand_aligned (mc_memory m) offset size Ha) as (_ & _ & H3).
    specialize (H3 Es). unfold slice, len in *.
    rewrite length_firstn, length_skipn. lia.
Qed.

(** X14. Expansion is paid once: the cost is never negative, and after the
    access has expanded the buffer the same access costs nothing. *)
Theorem expansion_cost_paid_once :
  forall (d : bytes) (offset size : Z),
    0 <= expansion_cost_of d offset size
    /\ expansion_cost_of (expand d offset size) offset size = 0.
Proof.
  intros d offset size. split.
  - unfold expansion_cost_of. destruct (size =? 0); [lia |].
    destruct (word_size (offset + size) <=? word_size (len d)) eqn:E; [lia |].
    apply Z.leb_gt in E.
    pose proof (len_nonneg d).
    assert (0 <= word_size (len d)) by (unfold word_size; apply Z.div_pos; lia).
    set (c := word_size (len d)) in *. set (r := word_size (offset + size)) in *.
    assert (c * c / 512 <= r * r / 512) by (apply Z.div_le_mono; nia).
    lia.
  - unfold expansion_cost_of. destruct (size =? 0) eqn:Es; [reflexivity |].
    rewrite len_expand, Es. simpl.
    destruct (word_size (offset + size) <=? word_size (len d)) eqn:E.
    + now rewrite E.
    + rewrite word_size_mul, Z.leb_refl. reflexivity.
Qed.

(** ** Words in memory *)

Lemma fold_from_bytes a l :
  fold_left (fun acc b => acc * 256 + b) l a = a * 256 ^ len l + from_bytes_big l.
Proof.
  unfold from_bytes_big. revert a. induction l as [| b l IH]; intros a.
  - simpl. unfold len. simpl. lia.
  - simpl fold_left. rewrite IH. rewrite (IH (0 * 256 + b)).
    rewrite len_cons. rewrite Z.pow_add_r by (pose proof (len_nonneg l); lia).
    lia.
Qed.

Lemma from_bytes_big_app l1 l2 :
  from_bytes_big (l1 ++ l2) = from_bytes_big l1 * 256 ^ len l2 + from_bytes_big l2.
Proof.
  unfold from_bytes_big at 1. rewrite fold_left_app.
  rewrite fold_from_bytes. reflexivity.
Qed.

Lemma to_bytes_big_aux_app n v acc :
  to_bytes_big_aux n v acc = to_bytes_big_aux n v [] ++ acc.
Proof.
  revert v acc. induction n as [| n IH]; intros v acc; simpl.
  - reflexivity.
  - rewrite IH. rewrite (IH _ [v mod 256]). rewrite <- app_assoc. reflexivity.
Qed.

Lemma length_to_bytes_big_aux n v : length (to_bytes_big_aux n v []) = n.
Proof.
  revert v. induction n as [| n IH]; intros v; simpl.
  - reflexivity.
  - rewrite to_bytes_big_aux_app, length_app, IH. simpl. lia.
Qed.

Lemma from_to_bytes_big n v :
  0 <= v -> from_bytes_big (to_bytes_big_aux n v []) = v mod 256 ^ Z.of_nat n.
Proof.
  revert v. induction n as [| n IH]; intros v Hv.
  - simpl. now rewrite Z.mod_1_r.
  - simpl to_bytes_big_aux. rewrite to_bytes_big_aux_app, from_bytes_big_app.
    rewrite IH by (apply Z.div_pos; lia).
    change (len [v mod 256]) with 1. change (from_bytes_big [v mod 256]) with (0 * 256 + v mod 256).
    rewrite Nat2Z.inj_succ, Z.pow_succ_r by lia.
    rewrite Z.rem_mul_r by lia. lia.
Qed.

(** X15. A word stored in memory is read back: [store_word] followed by
    [load_word] at the same non-negative offset gives the value modulo
    2^256. *)
Theorem store_word_then_load_word :
  forall (offset v : Z) (m : Machine),
    0 <= offset -> memory_aligned m ->
    exists m',
      (store_word offset v ;; load_word offset) m = Some (inr (v mod 2 ^ 256), m').
Proof.
  intros offset v m Ho Ha.
  set (data := to_bytes_big_aux 32 (Z.land v (Z.shiftl 1 256 - 1)) []).
  assert (Hlen : len data = 32) by (unfold len, data; now rewrite length_to_bytes_big_aux).
  assert (Hval : from_bytes_big data = v mod 2 ^ 256).
  { unfold data. change (Z.shiftl 1 256 - 1) with (Z.ones 256).
    rewrite Z.land_ones by lia.
    rewrite from_to_bytes_big by (apply Z.mod_pos_bound; lia).
    change (256 ^ Z.of_nat 32) with (2 ^ 256).
    apply Z.mod_mod. lia. }
  set (d1 := expand (mc_memory m) offset (len data)).
  set (d2 := splice d1 offset data).
  destruct (expand_aligned (mc_memory m) offset (len data) Ha) as (Ha1 & _ & Hfit).
  fold d1 in Ha1, Hfit. specialize (Hfit ltac:(lia)).
  assert (Hl2 : len d2 = len d1) by (apply len_splice; lia).
  assert (Hne : is_empty data = false).
  { destruct data; [unfold len in Hlen; simpl in Hlen; lia | reflexivity]. }
  unfold store_word. fold data.
  erewrite bind_inr by apply mem_store_ok. rewrite Hne. fold d1 d2.
  unfold load_word, mem_load. change (32 =? 0) with false. cbv iota.
  unfold bind, read, set_memory, ret. simpl.
  assert (Hexp : expand d2 offset 32 = d2).
  { unfold expand. simpl.
    destruct (word_size (len d2) <? word_size (offset + 32)) eqn:E; [| reflexivity].
    apply Z.ltb_lt in E. rewrite Hl2 in E.
    pose proof (word_size_mono (offset + 32) (len d1) ltac:(lia)). lia. }
  rewrite Hexp. eexists. f_equal. f_equal. f_equal.
  rewrite <- Hval. f_equal.
  unfold slice, d2, splice.
  assert (Hf : length (firstn (Z.to_nat offset) d1) = Z.to_nat offset).
  { rewrite length_firstn. unfold len in Hfit. lia. }
  rewrite skipn_app, Hf, Nat.sub_diag. rewrite skipn_all2 by lia.
  rewrite app_nil_l. change (skipn 0 (data ++ ?x)) with (data ++ x).
  replace (Z.to_nat (offset + 32 - offset)) with (length data) by (unfold len in Hlen; lia).
  rewrite firstn_app, Nat.sub_diag, firstn_all. now rewrite app_nil_r.
Qed.

(** ** Intrinsic gas and address lengths *)

Lemma intrinsic_fold gs data g :
  fold_left
    (fun gas byte =>
       if byte =? 0 then gas + G_TXDATAZERO gs else gas + G_TXDATANONZERO gs) data g
  = g + G_TXDATAZERO gs * len (List.filter (fun b => b =? 0) data)
      + G_TXDATANONZERO gs * len (List.filter (fun b => negb (b =? 0)) data).
Proof.
  revert g. induction data as [| b data IH]; intros g.
  - simpl. unfold len. simpl. lia.
  - simpl. rewrite IH. destruct (b =? 0); simpl; rewrite len_cons; lia.
Qed.

(** X16. The intrinsic gas of a transaction is the base cost (creation
    or call) plus the zero-byte price for each zero byte of the data and
    the non-zero price for each other byte. *)
Theorem intrinsic_gas_formula :
  forall (gs : GasSchedule) (data : bytes) (is_create : bool),
    transaction_intrinsic_gas gs data is_create
    = (if is_create then G_TXCREATE gs else G_TRANSACTION gs)
      + G_TXDATAZERO gs * len (List.filter (fun b => b =? 0) data)
      + G_TXDATANONZERO gs * len (List.filter (fun b => negb (b =? 0)) data).
Proof. intros. unfold transaction_intrinsic_gas. apply intrinsic_fold. Qed.

Lemma len_filter_split (data : bytes) :
  len (List.filter (fun b => b =? 0) data)
  + len (List.filter (fun b => negb (b =? 0)) data) = len data.
Proof.
  induction data as [| b data IH]; simpl; [reflexivity |].
  destruct (b =? 0); simpl; rewrite !len_cons; lia.
Qed.

(** Under the schedule of every fork the intrinsic gas lies between
    base + 4 per byte and base + 68 per byte, and it adds up over
    concatenated data. *)
Theorem intrinsic_gas_bounds :
  forall (fork : Fork) (data more : bytes) (is_create : bool),
    let base := if is_create then 53000 else 21000 in
    let intrinsic := transaction_intrinsic_gas (gas_schedule_of fork) in
    base + 4 * len data <= intrinsic data is_create <= base + 68 * len data
    /\ intrinsic (data ++ more) is_create
       = intrinsic data is_create + intrinsic more is_create - base.
Proof.
  intros fork data more is_create base intrinsic.
  unfold intrinsic, transaction_intrinsic_gas.
  rewrite !intrinsic_fold.
  assert (Hg : gas_schedule_of fork = FrontierGasSchedule) by now destruct fork.
  rewrite Hg. simpl G_TXDATAZERO. simpl G_TXDATANONZERO.
  simpl G_TXCREATE. simpl G_TRANSACTION. fold base.
  pose proof (len_filter_split data).
  pose proof (len_nonneg (List.filter (fun b => b =? 0) data)).
  pose proof (len_nonneg (List.filter (fun b => negb (b =? 0)) data)).
  split; [lia |].
  rewrite !List.filter_app, !len_app. lia.
Qed.

Lemma length_build f : length (Keccak.build f) = 25%nat.
Proof. reflexivity. Qed.

Lemma length_round st rc : length (Keccak.round st rc) = 25%nat.
Proof.
  unfold Keccak.round, Keccak.iota.
  pose proof (length_build
    (fun x y =>
       Z.lxor (Keccak.lane (Keccak.rho_pi (Keccak.theta st)) x y)
         (Z.land (Z.lxor (Keccak.lane (Keccak.rho_pi (Keccak.theta st)) (x + 1) y)
                         Keccak.mask64)
            (Keccak.lane (Keccak.rho_pi (Keccak.theta st)) (x + 2) y)))) as H.
  fold (Keccak.chi (Keccak.rho_pi (Keccak.theta st))) in H.
  destruct (Keccak.chi _); simpl in *; [discriminate | exact H].
Qed.

Lemma length_keccak_f st : length (Keccak.keccak_f st) = 25%nat.
Proof.
  unfold Keccak.keccak_f, Keccak.round_constants.
  repeat (rewrite fold_left_cons || (simpl fold_left)).
  apply length_round.
Qed.

Lemma length_absorb n data st :
  length st = 25%nat -> length (Keccak.absorb n data st) = 25%nat.
Proof.
  revert data st. induction n as [| n IH]; intros data st H; simpl; [exact H |].
  apply IH. apply length_keccak_f.
Qed.

Lemma length_bytes_of_lane n v : length (Keccak.bytes_of_lane n v) = n.
Proof. revert v. induction n; intros v; simpl; auto. Qed.

Lemma length_sponge256 suffix msg : length (Keccak.sponge256 suffix msg) = 32%nat.
Proof.
  unfold Keccak.sponge256.
  pose proof (length_absorb
                (length (Keccak.pad suffix msg) / Z.to_nat Keccak.rate)
                (Keccak.pad suffix msg) (repeat 0 25%nat) eq_refl) as H.
  destruct (Keccak.absorb _ _ _) as [| a [| b [| c [| d st]]]]; simpl in H; try discriminate.
  cbn [firstn flat_map]. rewrite !length_app, !length_bytes_of_lane. reflexivity.
Qed.

(** X17. [create_address] raises [ValueError] on a negative nonce and
    returns 20 bytes on every other; [create2_address] returns 20 bytes
    on every input: the last 20 of a 32-byte digest. *)
Theorem created_addresses_have_20_bytes :
  forall (sender salt init_code_hash : bytes) (n : Z),
    match create_address sender n with
    | inl e => n < 0 /\ e = PyError "ValueError"
    | inr address => 0 <= n /\ len address = 20
    end
    /\ len (create2_address sender salt init_code_hash) = 20
    /\ forall data, len (hashlib_sha3_256 data) = 32.
Proof.
  intros sender salt init_code_hash n.
  assert (Hdigest : forall data, len (hashlib_sha3_256 data) = 32).
  { intros data. unfold hashlib_sha3_256, Keccak.sha3_256, len.
    now rewrite length_sponge256. }
  assert (Hlast : forall data, len (skipn 12 (hashlib_sha3_256 data)) = 20).
  { intros data. pose proof (Hdigest data) as H. unfold len in *.
    rewrite length_skipn. lia. }
  split; [| split; [apply Hlast | exact Hdigest]].
  unfold create_address, rlp_encode_int.
  destruct (n =? 0) eqn:E0.
  - apply Z.eqb_eq in E0. split; [lia | apply Hlast].
  - destruct (n <? 0x80) eqn:E1.
    + destruct (n <? 0) eqn:E2.
      * apply Z.ltb_lt in E2. split; [exact E2 | reflexivity].
      * apply Z.ltb_ge in E2. split; [exact E2 | apply Hlast].
    + apply Z.ltb_ge in E1. split; [lia | apply Hlast].
Qed.

(** ** Jump destinations *)

Lemma next_instruction_gt code i : i < next_instruction code i.
Proof.
  unfold next_instruction. destruct (_ && _) eqn:E; [| lia].
  apply andb_true_iff in E as [E _]. apply Z.leb_le in E. lia.
Qed.

Lemma reaches_le code i x : reaches code i x -> i <= x.
Proof.
  induction 1; [lia |]. pose proof (next_instruction_gt code i). lia.
Qed.

Lemma find_jumpdests_from_S fuel code i acc :
  find_jumpdests_from (S fuel) code i acc =
  if i <? len code then
    find_jumpdests_from fuel code (next_instruction code i)
      (if byte_at code i =? Opcode.JUMPDEST then {[ i ]} ∪ acc else acc)
  else acc.
Proof. reflexivity. Qed.

Lemma find_jumpdests_from_spec fuel code i acc x :
  len code - i <= Z.of_nat fuel ->
  x ∈ find_jumpdests_from fuel code i acc <->
  x ∈ acc \/ (reaches code i x /\ x < len code /\ byte_at code x = Opcode.JUMPDEST).
Proof.
  revert i acc. induction fuel as [| fuel IH]; intros i acc Hfuel.
  - simpl. split; [now left |]. intros [H | (Hr & Hx & _)]; [exact H |].
    exfalso. inversion Hr; subst; lia.
  - rewrite find_jumpdests_from_S.
    destruct (i <? len code) eqn:El.
    + apply Z.ltb_lt in El. pose proof (next_instruction_gt code i).
      rewrite IH by lia. split.
      * intros [H1 | (Hr & Hx & Hb)].
        -- destruct (byte_at code i =? Opcode.JUMPDEST) eqn:Ej; [| now left].
           apply elem_of_union in H1 as [H1 | H1]; [| now left].
           apply elem_of_singleton in H1. subst x. apply Z.eqb_eq in Ej.
           right. split; [constructor | split; assumption].
        -- right. split; [now apply reaches_next | split; assumption].
      * intros [H1 | (Hr & Hx & Hb)].
        -- left. destruct (_ =? _); [apply elem_of_union; now right | exact H1].
        -- inversion Hr; subst.
           ++ left. apply Z.eqb_eq in Hb. rewrite Hb.
              apply elem_of_union. left. now apply elem_of_singleton.
           ++ right. split; [assumption | split; assumption].
    + apply Z.ltb_ge in El. split; [now left |].
      intros [H | (Hr & Hx & _)]; [exact H |].
      exfalso. inversion Hr; subst; lia.
Qed.

Lemma jumpdests_spec :
  forall (code : bytes) (x : Z),
    x ∈ _find_jumpdests code <->
    instruction_start code x /\ x < len code /\ byte_at code x = 0x5B.
Proof.
  intros code x. unfold _find_jumpdests, instruction_start.
  rewrite find_jumpdests_from_spec by (unfold len; lia).
  split.
  - intros [H | H]; [now apply not_elem_of_empty in H | exact H].
  - intros H. now right.
Qed.

(** X18. The valid jump destinations are exactly the instruction
    boundaries inside the code that hold the JUMPDEST byte. *)
Theorem jumpdests_characterised :
  forall (code : bytes) (x : Z),
    x ∈ _find_jumpdests code <->
    instruction_start code x /\ x < len code /\ byte_at code x = 0x5B.
Proof. exact jumpdests_spec. Qed.

Lemma reaches_linear code a i x :
  reaches code a i -> reaches code a x -> i < x -> i < len code ->
  reaches code (next_instruction code i) x.
Proof.
  intros Hi. revert x. induction Hi as [i | a i Ha Hi IH]; intros x Hx Hlt Hlen.
  - inversion Hx; subst; [lia | assumption].
  - apply reaches_le in Hi as Hle. pose proof (next_instruction_gt code a).
    inversion Hx; subst; [lia |]. now apply IH.
Qed.

(** X19. The immediate bytes of a PUSHn that sits on an instruction
    boundary are never valid jump destinations, whatever they hold. *)
Theorem push_data_is_never_a_jumpdest :
  forall (code : bytes) (i n x : Z),
    instruction_start code i -> i < len code ->
    1 <= n <= 32 -> byte_at code i = 0x5F + n ->
    i < x <= i + n ->
    x ∉ _find_jumpdests code.
Proof.
  intros code i n x Hi Hlen Hn Hb Hx Hin.
  apply jumpdests_spec in Hin as (Hs & _ & _).
  pose proof (reaches_linear code 0 i x Hi Hs ltac:(lia) Hlen) as Hr.
  apply reaches_le in Hr. unfold next_instruction in Hr. rewrite Hb in Hr.
  assert (E : (Opcode.PUSH1 <=? 0x5F + n) && (0x5F + n <=? Opcode.PUSH32) = true).
  { apply andb_true_iff. unfold Opcode.PUSH1, Opcode.PUSH32. split; apply Z.leb_le; lia. }
  rewrite E in Hr. unfold Opcode.PUSH1 in Hr. lia.
Qed.

(** ** Gas accounting of a frame *)

Lemma plain_continue_at pc g : plain_result (continue_at pc g).
Proof. intros m r m' E. inversion E; subst. now split. Qed.

Lemma plain_finish ok g d : plain_result (finish ok g d).
Proof. intros m r m' E. inversion E; subst. now split. Qed.

Lemma plain_raise e : plain_result (raise e).
Proof. intros m r m' E. discriminate. Qed.

Lemma plain_bind {A} (c : M A) (k : A -> M OpcodeResult) :
  (forall a, plain_result (k a)) -> plain_result (bind c k).
Proof.
  intros Hk m r m'' E. apply bind_inv in E as (a & m' & _ & E). exact (Hk a _ _ _ E).
Qed.

Create HintDb plain.
#[local] Hint Resolve plain_continue_at plain_finish plain_raise : plain.

Ltac plain_step :=
  first
    [ solve [auto with plain]
    | apply plain_bind; intros ?
    | match goal with
      | |- plain_result (if ?b then _ else _) => destruct b
      | |- plain_result (match ?x with _ => _ end) => destruct x
      end ].

Section PlainOpcodes.
Variable execute : Message -> M ExecutionResult.
Variable gs : GasSchedule.
Variable env : Environment.

Lemma plain_handle_call pc message gas ct :
  plain_result (_handle_call execute gs pc message gas ct).
Proof. unfold _handle_call, call_finish. repeat plain_step. Qed.

Lemma plain_execute_system opcode pc message gas :
  plain_result (execute_system execute gs opcode pc message gas).
Proof. pose proof plain_handle_call. unfold execute_system. repeat plain_step. Qed.

Lemma plain_execute_stack_memory_flow opcode pc code message gas jd :
  plain_result (execute_stack_memory_flow execute gs opcode pc code message gas jd).
Proof.
  pose proof plain_execute_system. unfold execute_stack_memory_flow. repeat plain_step.
Qed.

Lemma plain_execute_block_info opcode pc code message gas jd :
  plain_result (execute_block_info execute gs env opcode pc code message gas jd).
Proof.
  pose proof plain_execute_stack_memory_flow.
  unfold execute_block_info. cbv zeta. repeat plain_step.
Qed.

Lemma plain_execute_environment opcode pc code message gas jd :
  plain_result (execute_environment execute gs env opcode pc code message gas jd).
Proof.
  pose proof plain_execute_block_info.
  unfold execute_environment. cbv zeta. repeat plain_step.
Qed.

Lemma plain_execute_opcode opcode pc code message gas jd :
  plain_result (_execute_opcode execute gs env opcode pc code message gas jd).
Proof.
  pose proof plain_execute_environment.
  unfold _execute_opcode. cbv zeta. repeat plain_step.
Qed.
End PlainOpcodes.

Lemma plain_dispatch execute fork env message jd pc gas :
  plain_result (dispatch execute fork env message jd pc gas).
Proof.
  unfold dispatch. destruct (_ =? Opcode.PUSH0).
  - destruct fork; repeat plain_step.
  - apply plain_execute_opcode.
Qed.

Lemma run_loop_well_accounted fuel fork env message jd pc gas m r m' :
  run_loop fuel fork env message jd pc gas m = Some (inr r, m') ->
  well_accounted message r.
Proof.
  revert pc gas m. induction fuel as [| fuel IH]; intros pc gas m E; [discriminate |].
  rewrite run_loop_S in E.
  destruct (pc <? len (msg_code message)).
  - destruct (dispatch _ _ _ _ _ _ _ m) as [[[e | o] m0] |] eqn:Ed; [| | discriminate].
    + destruct (caught e); [| discriminate].
      inversion E; subst. unfold well_accounted, failure. simpl.
      repeat split; lia.
    + destruct (or_done o).
      * destruct (plain_dispatch _ _ _ _ _ _ _ _ _ _ Ed) as [He Hc].
        inversion E; subst. unfold well_accounted. simpl.
        rewrite He, Hc. repeat split; try lia; congruence.
      * exact (IH _ _ _ E).
  - inversion E; subst. unfold well_accounted. simpl.
    repeat split; try lia; congruence.
Qed.

(** X20. Every result [execute] returns accounts for the message's gas:
    gas_used plus gas_remaining is the gas of the message.  It never
    carries a created address, and a result with an error (an exception
    or the depth limit) has used all the gas and has neither return data
    nor logs: only REVERT fails with gas left. *)
Theorem execute_accounts_for_gas :
  forall (fuel : nat) (fork : Fork) (env : Environment) (message : Message)
         (m m' : Machine) (r : ExecutionResult),
    execute fuel fork env message m = Some (inr r, m') ->
    r_gas_used r + r_gas_remaining r = msg_gas message
    /\ r_created_address r = None
    /\ (r_error r <> None ->
        r_success r = false /\ r_gas_remaining r = 0
        /\ r_return_data r = [] /\ r_logs r = []).
Proof.
  intros fuel fork env message m m' r E.
  unfold execute, execute_with in E.
  destruct (MAX_CALL_DEPTH <? msg_depth message).
  - inversion E; subst. unfold failure. simpl. repeat split; lia.
  - destruct (run_loop _ _ _ _ _ _ _ _) as [[[e | r0] m0] |] eqn:El; try discriminate.
    inversion E; subst. exact (run_loop_well_accounted _ _ _ _ _ _ _ _ _ _ El).
Qed.

(** ** Static frames, jumps and empty code *)

Lemma static_write_raises execute fork env message jd pc gas m :
  msg_is_static message = true ->
  In (byte_at (msg_code message) pc) writing_opcodes ->
  exists reason,
    dispatch execute fork env message jd pc gas m
    = Some (inl (WriteProtectionError reason), m).
Proof.
  intros Hs Hb. unfold dispatch.
  unfold _execute_opcode, execute_environment, execute_block_info,
    execute_stack_memory_flow, execute_system.
  simpl in Hb.
  repeat (destruct Hb as [Hb | Hb];
          [rewrite <- Hb; cbv zeta; simpl; rewrite Hs; eexists; reflexivity |]).
  contradiction.
Qed.

(** X21. In a static frame the writing opcodes fail the frame with the
    write-protection error before anything is popped or charged: the
    result reports all gas used and the machine, State included, is left
    as it was. *)
Theorem static_frame_rejects_writes :
  forall (fuel : nat) (fork : Fork) (env : Environment) (message : Message)
         (jd : gset Z) (pc gas : Z) (m : Machine),
    msg_is_static message = true ->
    0 <= pc < len (msg_code message) ->
    In (byte_at (msg_code message) pc) writing_opcodes ->
    exists reason,
      run_loop (S fuel) fork env message jd pc gas m
      = Some (inr {| r_success := false; r_gas_used := msg_gas message;
                     r_gas_remaining := 0; r_return_data := []; r_logs := [];
                     r_error := Some (Raised (WriteProtectionError reason));
                     r_created_address := None |}, m).
Proof.
  intros fuel fork env message jd pc gas m Hs [_ Hpc] Hb.
  apply Z.ltb_lt in Hpc.
  destruct (static_write_raises (execute fuel fork env) fork env message jd pc gas m
              Hs Hb) as [reason Hd].
  exists reason. rewrite run_loop_S, Hpc, Hd. reflexivity.
Qed.

(** A frame at the end of its code, and so any frame whose code is
    empty, succeeds at once: no gas is used, nothing is returned, and the
    State is untouched. *)
Theorem running_off_the_code_succeeds :
  forall (fuel : nat) (fork : Fork) (env : Environment) (message : Message) (m : Machine),
    msg_code message = [] ->
    msg_depth message <= MAX_CALL_DEPTH ->
    execute (S fuel) fork env message m
    = Some (inr {| r_success := true; r_gas_used := 0;
                   r_gas_remaining := msg_gas message; r_return_data := [];
                   r_logs := []; r_error := None; r_created_address := None |}, m).
Proof.
  intros fuel fork env message m Hc Hd.
  unfold execute, execute_with.
  apply Z.ltb_ge in Hd. rewrite Hd.
  rewrite run_loop_S, Hc. simpl.
  unfold bind, read, ret. simpl. rewrite Z.sub_diag.
  now destruct m.
Qed.

Lemma charge_ok g c m : c <= g -> _charge_gas g c m = Some (inr (g - c), m).
Proof.
  intros H. unfold _charge_gas. destruct (g <? c) eqn:E; [apply Z.ltb_lt in E; lia |].
  reflexivity.
Qed.

Lemma pop_ok v s m :
  mc_stack m = v :: s ->
  pop m = Some (inr v, {| mc_stack := s; mc_memory := mc_memory m; mc_logs := mc_logs m;
                          mc_state := mc_state m; mc_return_data := mc_return_data m |}).
Proof. intros H. unfold pop, bind, read. rewrite H. reflexivity. Qed.

(** X22. JUMP to a position that is not a JUMPDEST byte on an instruction
    boundary fails the frame with the invalid-jump error and all gas
    used; the State is untouched. *)
Theorem jump_to_invalid_destination_fails :
  forall (fuel : nat) (fork : Fork) (env : Environment) (message : Message)
         (pc gas dest : Z) (rest : list Z) (m : Machine),
    0 <= pc < len (msg_code message) ->
    byte_at (msg_code message) pc = 0x56 ->
    8 <= gas ->
    mc_stack m = dest :: rest ->
    (byte_at (msg_code message) dest <> 0x5B
     \/ ~ instruction_start (msg_code message) dest
     \/ len (msg_code message) <= dest) ->
    exists m',
      run_loop (S fuel) fork env message (_find_jumpdests (msg_code message)) pc gas m
      = Some (inr {| r_success := false; r_gas_used := msg_gas message;
                     r_gas_remaining := 0; r_return_data := []; r_logs := [];
                     r_error := Some (Raised (InvalidJumpError dest));
                     r_created_address := None |}, m')
      /\ mc_state m' = mc_state m.
Proof.
  intros fuel fork env message pc gas dest rest m [_ Hpc] Hb Hg Hst Hbad.
  apply Z.ltb_lt in Hpc.
  assert (Hnot : dest ∉ _find_jumpdests (msg_code message)).
  { intros Hin. apply jumpdests_spec in Hin as (H1 & H2 & H3).
    destruct Hbad as [Hbad | [Hbad | Hbad]]; [congruence | contradiction | lia]. }
  assert (Hdec : bool_decide (dest ∈ _find_jumpdests (msg_code message)) = false)
    by now apply bool_decide_eq_false.
  eexists. rewrite run_loop_S, Hpc. unfold dispatch. rewrite Hb.
  unfold _execute_opcode, execute_environment, execute_block_info,
    execute_stack_memory_flow.
  cbv zeta. simpl.
  assert (Hgs : G_MID (gas_schedule_of fork) = 8) by now destruct fork.
  rewrite Hgs.
  erewrite bind_inr by (apply charge_ok; lia).
  erewrite bind_inr by (apply pop_ok; exact Hst).
  rewrite Hdec. simpl. split; reflexivity.
Qed.

(** ** Signed division *)

Lemma unsigned_to_signed_zero b :
  0 <= b < 2 ^ 256 -> b <> 0 -> unsigned_to_signed b <> 0.
Proof. intros Hb Hne. unfold unsigned_to_signed. destruct (b <? 2 ^ 255); lia. Qed.

Lemma unsigned_to_signed_range v :
  0 <= v < 2 ^ 256 -> - 2 ^ 255 <= unsigned_to_signed v < 2 ^ 255.
Proof.
  intros Hv. unfold unsigned_to_signed. destruct (v <? 2 ^ 255) eqn:E.
  - apply Z.ltb_lt in E. lia.
  - apply Z.ltb_ge in E. lia.
Qed.

Lemma signed_to_unsigned_inv s :
  - 2 ^ 255 <= s < 2 ^ 255 -> unsigned_to_signed (signed_to_unsigned s) = s.
Proof.
  intros Hs. unfold unsigned_to_signed, signed_to_unsigned.
  destruct (0 <=? s) eqn:E.
  - apply Z.leb_le in E. destruct (s <? 2 ^ 255) eqn:E'; [lia |].
    apply Z.ltb_ge in E'. lia.
  - apply Z.leb_gt in E.
    destruct (s + 2 ^ 256 <? 2 ^ 255) eqn:E'; [apply Z.ltb_lt in E' |]; lia.
Qed.

Lemma signed_quot sa sb :
  - 2 ^ 255 <= sa < 2 ^ 255 -> - 2 ^ 255 <= sb < 2 ^ 255 -> sb <> 0 ->
  ~ (sa = - 2 ^ 255 /\ sb = -1) ->
  (if negb (Bool.eqb (sa <? 0) (sb <? 0)) then -1 else 1) * (Z.abs sa / Z.abs sb)
  = Z.quot sa sb
  /\ - 2 ^ 255 <= Z.quot sa sb < 2 ^ 255.
Proof.
  intros Hsa Hsb Hsb0 Hov. split.
  - rewrite (Z.quot_div sa sb Hsb0).
    destruct (sa <? 0) eqn:E1; destruct (sb <? 0) eqn:E2; simpl;
      try apply Z.ltb_lt in E1; try apply Z.ltb_ge in E1;
      try apply Z.ltb_lt in E2; try apply Z.ltb_ge in E2.
    + rewrite (Z.sgn_neg sa), (Z.sgn_neg sb) by lia. lia.
    + rewrite (Z.sgn_neg sa), (Z.sgn_pos sb) by lia. lia.
    + destruct (Z.eq_dec sa 0) as [-> | Hsa0].
      * simpl. rewrite Z.div_0_l by lia. lia.
      * rewrite (Z.sgn_pos sa), (Z.sgn_neg sb) by lia. lia.
    + destruct (Z.eq_dec sa 0) as [-> | Hsa0].
      * simpl. rewrite Z.div_0_l by lia. lia.
      * rewrite (Z.sgn_pos sa), (Z.sgn_pos sb) by lia. lia.
  - assert (Habs : Z.abs (Z.quot sa sb) <= Z.abs sa).
    { rewrite <- Z.quot_abs by exact Hsb0.
      apply Z.quot_le_upper_bound; [lia |].
      assert (1 <= Z.abs sb) by lia. nia. }
    destruct (Z.eq_dec (Z.quot sa sb) (2 ^ 255)) as [Eq | Eq]; [| lia].
    exfalso.
    assert (Ea : sa = - 2 ^ 255) by lia.
    destruct (Z.eq_dec sb (-1)) as [Eb | Hn1]; [apply Hov; now split |].
    destruct (Z.eq_dec sb 1) as [Eb | Hn1'].
    + rewrite Ea, Eb in Eq. change (- 2 ^ 255 ÷ 1) with (- 2 ^ 255) in Eq. lia.
    + assert (Hsmall : Z.abs (sa ÷ sb) <= 2 ^ 254).
      { rewrite <- Z.quot_abs by exact Hsb0.
        apply Z.quot_le_upper_bound; [lia |].
        assert (2 <= Z.abs sb) by lia. rewrite Ea. simpl Z.abs at 2. nia. }
      lia.
Qed.

(** X23. SDIV is signed division truncated towards zero and SMOD is its
    remainder, with the sign of the dividend: read as signed words, the
    results are [Z.quot] and [Z.rem] of the signed operands. *)
Theorem sdiv_smod_truncate :
  forall a b : Z,
    0 <= a < 2 ^ 256 -> 0 <= b < 2 ^ 256 -> b <> 0 ->
    ~ (unsigned_to_signed a = - 2 ^ 255 /\ unsigned_to_signed b = -1) ->
    unsigned_to_signed (sdiv a b)
      = Z.quot (unsigned_to_signed a) (unsigned_to_signed b)
    /\ unsigned_to_signed (smod a b)
       = Z.rem (unsigned_to_signed a) (unsigned_to_signed b).
Proof.
  intros a b Ha Hb Hne Hov.
  pose proof (unsigned_to_signed_range a Ha) as Hsa.
  pose proof (unsigned_to_signed_range b Hb) as Hsb.
  pose proof (unsigned_to_signed_zero b Hb Hne) as Hsb0.
  set (sa := unsigned_to_signed a) in *. set (sb := unsigned_to_signed b) in *.
  assert (Eb : (b =? 0) = false) by now apply Z.eqb_neq.
  split.
  - unfold sdiv. rewrite Eb. fold sa sb.
    assert (Eov : (sa =? - 2 ^ 255) && (sb =? -1) = false).
    { apply andb_false_iff. destruct (Z.eq_dec sa (- 2 ^ 255)) as [E1 | E1].
      - right. apply Z.eqb_neq. intros E2. apply Hov. now split.
      - left. now apply Z.eqb_neq. }
    rewrite Eov.
    destruct (signed_quot sa sb Hsa Hsb Hsb0 Hov) as [Hq Hrange].
    rewrite Hq. now apply signed_to_unsigned_inv.
  - unfold smod. rewrite Eb. fold sa sb.
    assert (Hr : (if sa <? 0 then -1 else 1) * (Z.abs sa mod Z.abs sb) = Z.rem sa sb).
    { rewrite (Z.rem_mod sa sb Hsb0).
      destruct (sa <? 0) eqn:E1; [apply Z.ltb_lt in E1 | apply Z.ltb_ge in E1].
      - rewrite (Z.sgn_neg sa) by lia. lia.
      - destruct (Z.eq_dec sa 0) as [-> | Hsa0].
        + simpl. rewrite Z.mod_0_l by lia. lia.
        + rewrite (Z.sgn_pos sa) by lia. lia. }
    rewrite Hr. apply signed_to_unsigned_inv.
    pose proof (Z.rem_bound_abs sa sb Hsb0). lia.
Qed.

(** ** Plain transfers *)

Lemma get_account_set_balance s a b a' :
  get_account (set_balance s a b) a' =
  if decide (a = a')
  then {| nonce := nonce (get_account s a); balance := b;
          code := code (get_account s a); storage := storage (get_account s a) |}
  else get_account s a'.
Proof. unfold set_balance. apply get_account_set_account. Qed.

Lemma get_account_increment_nonce s a a' :
  get_account (increment_nonce s a) a' =
  if decide (a = a')
  then {| nonce := nonce (get_account s a) + 1; balance := balance (get_account s a);
          code := code (get_account s a); storage := storage (get_account s a) |}
  else get_account s a'.
Proof. unfold increment_nonce. apply get_account_set_account. Qed.

Lemma get_balance_set_balance_same s a b : get_balance (set_balance s a b) a = b.
Proof. unfold get_balance. rewrite get_account_set_balance. now rewrite decide_True. Qed.

Lemma get_balance_set_balance_other s a b a' :
  a <> a' -> get_balance (set_balance s a b) a' = get_balance s a'.
Proof.
  intros H. unfold get_balance. rewrite get_account_set_balance. now rewrite decide_False.
Qed.

Lemma get_balance_increment_nonce s a a' :
  get_balance (increment_nonce s a) a' = get_balance s a'.
Proof.
  unfold get_balance. rewrite get_account_increment_nonce. now case_decide; subst.
Qed.

Lemma get_code_set_balance s a b a' : get_code (set_balance s a b) a' = get_code s a'.
Proof. unfold get_code. rewrite get_account_set_balance. now case_decide; subst. Qed.

Lemma get_code_increment_nonce s a a' :
  get_code (increment_nonce s a) a' = get_code s a'.
Proof. unfold get_code. rewrite get_account_increment_nonce. now case_decide; subst. Qed.

Lemma nonce_set_balance s a b a' :
  nonce (get_account (set_balance s a b) a') = nonce (get_account s a').
Proof. rewrite get_account_set_balance. now case_decide; subst. Qed.

Lemma nonce_increment_nonce_same s a :
  nonce (get_account (increment_nonce s a) a) = nonce (get_account s a) + 1.
Proof. rewrite get_account_increment_nonce. now rewrite decide_True. Qed.

Ltac accounts :=
  unfold new_interpreter; cbn [mc_state];
  repeat match goal with
         | |- context [balance (get_account ?s ?a)] =>
             change (balance (get_account s a)) with (get_balance s a)
         end;
  repeat first
    [ rewrite get_balance_set_balance_same
    | rewrite get_balance_set_balance_other by congruence
    | rewrite get_balance_increment_nonce
    | rewrite get_code_set_balance
    | rewrite get_code_increment_nonce
    | rewrite nonce_set_balance
    | rewrite nonce_increment_nonce_same ];
  try lia; try congruence.

(** X24. A valid transaction to an account without code is a plain
    transfer: it succeeds, uses exactly the intrinsic gas, moves the value
    from the sender to the recipient, pays the intrinsic gas times the gas
    price to the coinbase and bumps the sender's nonce by one. *)
Theorem transfer_to_account_without_code :
  forall (fuel : nat) (fork : Fork) (state : State) (tx : Transaction)
         (env : Environment) (to : Address),
    tx_to tx = Some to -> len to = 20 -> get_code state to = [] ->
    validate_transaction fork tx state = None ->
    0 <= tx_value tx ->
    tx_sender tx <> to -> env_coinbase env <> tx_sender tx -> env_coinbase env <> to ->
    let intrinsic :=
      transaction_intrinsic_gas (gas_schedule_of fork) (tx_data tx) false in
    exists state',
      state_transition (S fuel) fork state tx env
      = Some (inr (state',
                   {| r_success := true; r_gas_used := intrinsic;
                      r_gas_remaining := tx_gas tx - intrinsic; r_return_data := [];
                      r_logs := []; r_error := None; r_created_address := None |}))
      /\ get_balance state' (tx_sender tx)
         = get_balance state (tx_sender tx) - intrinsic * tx_gas_price tx - tx_value tx
      /\ get_balance state' to = get_balance state to + tx_value tx
      /\ get_balance state' (env_coinbase env)
         = get_balance state (env_coinbase env) + intrinsic * tx_gas_price tx
      /\ nonce (get_account state' (tx_sender tx))
         = nonce (get_account state (tx_sender tx)) + 1.
Proof.
  intros fuel fork state tx env to Hto Hlen Hcode Hvalid Hval Hst Hcs Hct intrinsic.
  unfold state_transition, copy. rewrite Hvalid, Hto.
  assert (Hne : is_empty to = false).
  { destruct to; [unfold len in Hlen; simpl in Hlen; lia | reflexivity]. }
  rewrite Hne.
  assert (Hva : valid_address to = true) by (unfold valid_address; now apply Z.eqb_eq).
  rewrite Hva. simpl negb. cbv iota.
  assert (Hfork : (match fork with
                   | Shanghai => intrinsic
                   | _ => intrinsic
                   end) = intrinsic) by now destruct fork.
  fold intrinsic. rewrite Hfork.
  match goal with
  | |- context [execute (S fuel) fork ?e ?msg ?m0] =>
      rewrite (running_off_the_code_succeeds fuel fork e msg m0)
  end.
  2: { cbn [msg_code]. accounts. }
  2: { simpl. unfold MAX_CALL_DEPTH. lia. }
  cbv iota beta. unfold settle. cbn [r_success r_gas_used r_return_data r_logs r_error r_created_address].
  eexists. split; [rewrite Z.add_0_r; reflexivity |].
  destruct (0 <? tx_value tx) eqn:Ev.
  - repeat split; accounts.
  - apply Z.ltb_ge in Ev. assert (tx_value tx = 0) by lia.
    repeat split; accounts.
Qed.

(** ** Rejected transactions and blocks *)

(** X25. A transaction with the wrong nonce, with a gas limit below the
    intrinsic gas of its data, or whose sender cannot pay gas limit times
    gas price plus value is turned away: the State comes back as it went
    in, no gas is used, and the interpreter is never run (no fuel is
    needed). *)
Theorem invalid_transaction_changes_nothing :
  forall (fuel : nat) (fork : Fork) (state : State) (tx : Transaction)
         (env : Environment),
    (nonce (get_account state (tx_sender tx)) <> tx_nonce tx
     \/ tx_gas tx
        < transaction_intrinsic_gas (gas_schedule_of fork) (tx_data tx)
            (match tx_to tx with None => true | Some _ => false end)
     \/ get_balance state (tx_sender tx)
        < tx_gas tx * tx_gas_price tx + tx_value tx) ->
    exists e,
      state_transition fuel fork state tx env
      = Some (inr (state,
                   {| r_success := false; r_gas_used := 0; r_gas_remaining := 0;
                      r_return_data := []; r_logs := []; r_error := Some e;
                      r_created_address := None |})).
Proof.
  intros fuel fork state tx env H.
  assert (Hv : exists e, validate_transaction fork tx state = Some e).
  { unfold validate_transaction.
    destruct (nonce _ =? tx_nonce tx) eqn:En; simpl; [| eauto].
    apply Z.eqb_eq in En.
    destruct (tx_gas tx <? _) eqn:Eg; [eauto |]. apply Z.ltb_ge in Eg.
    destruct (balance _ <? _) eqn:Eb; [eauto |]. apply Z.ltb_ge in Eb.
    exfalso. unfold get_balance in H. destruct H as [H | [H | H]]; [congruence | lia | lia]. }
  destruct Hv as [e Hv]. exists e.
  unfold state_transition, copy. now rewrite Hv.
Qed.

(** X26. [apply_block] runs the transactions in order on the evolving
    State: a block cut in two gives the same State and the same results as
    the first part followed by the second on the State the first part
    left, and a block that goes through returns one result per
    transaction. *)
Theorem apply_block_in_two_parts :
  forall (fuel : nat) (env : Environment) (first second : list Transaction)
         (state middle : State) (results : list ExecutionResult),
    apply_block fuel state first env = Some (inr (middle, results)) ->
    len results = len first
    /\ apply_block fuel state (first ++ second) env
       = match apply_block fuel middle second env with
         | Some (inr (final, more)) => Some (inr (final, results ++ more))
         | other => other
         end.
Proof.
  intros fuel env first second. induction first as [| tx first IH];
    intros state middle results H.
  - simpl in H. inversion H; subst. split; [reflexivity |]. simpl.
    destruct (apply_block fuel middle second env) as [[e | [final more]] |]; reflexivity.
  - simpl in H. simpl app. cbn [apply_block].
    destruct (state_transition fuel Frontier state tx env) as [[e | [s1 r1]] |];
      try discriminate.
    destruct (apply_block fuel s1 first env) as [[e | [s2 rs]] |] eqn:E; try discriminate.
    inversion H; subst. destruct (IH _ _ _ E) as [Hl Happ]. split.
    + rewrite !len_cons. lia.
    + rewrite Happ.
      destruct (apply_block fuel middle second env) as [[e | [final more]] |]; reflexivity.
Qed.

(** ** PUSH *)

Lemma from_bytes_big_range data :
  all_bytes data -> 0 <= from_bytes_big data < 256 ^ len data.
Proof.
  induction data as [| b data IH] using rev_ind; intros H.
  - unfold len. simpl. unfold from_bytes_big. simpl. lia.
  - apply Forall_app in H as [H1 H2]. inversion H2; subst.
    specialize (IH H1). rewrite from_bytes_big_app, len_app.
    change (len [b]) with 1. change (from_bytes_big [b]) with (0 * 256 + b).
    rewrite Z.pow_add_r by (pose proof (len_nonneg data); lia).
    nia.
Qed.

Lemma from_bytes_big_zeros n : from_bytes_big (zeros n) = 0.
Proof.
  unfold zeros. induction (Z.to_nat n) as [| k IH]; [reflexivity |].
  change (repeat 0 (S k)) with ([0] ++ repeat 0 k).
  rewrite from_bytes_big_app, IH. reflexivity.
Qed.

Lemma all_bytes_slice code a b : all_bytes code -> all_bytes (slice code a b).
Proof. intros H. unfold slice. apply Forall_take. now apply Forall_drop. Qed.

(** X27. PUSHn with enough gas and room on the stack pushes the bytes
    that follow it, read big-endian; where the code ends before n bytes,
    the bytes present are shifted left over the missing ones.  The value
    needs no reduction, 3 gas is charged and the program counter moves by
    1 + n. *)
Theorem push_reads_its_immediate :
  forall (execute : Message -> M ExecutionResult) (fork : Fork) (env : Environment)
         (message : Message) (jd : gset Z) (pc gas n : Z) (m : Machine),
    all_bytes (msg_code message) -> 0 <= pc ->
    1 <= n <= 32 -> byte_at (msg_code message) pc = 0x5F + n ->
    3 <= gas -> len (mc_stack m) < MAX_DEPTH ->
    let present := slice (msg_code message) (pc + 1) (pc + 1 + n) in
    let value := from_bytes_big present * 256 ^ (n - len present) in
    0 <= value < 2 ^ 256
    /\ dispatch execute fork env message jd pc gas m
       = Some (inr {| or_pc := pc + 1 + n; or_gas_remaining := gas - 3;
                      or_done := false; or_success := true; or_return_data := [];
                      or_error := None; or_created_address := None |},
               {| mc_stack := value :: mc_stack m; mc_memory := mc_memory m;
                  mc_logs := mc_logs m; mc_state := mc_state m;
                  mc_return_data := mc_return_data m |}).
Proof.
  intros execute fork env message jd pc gas n m Hcode _ Hn Hb Hgas Hdepth present value.
  assert (Hpresent : all_bytes present) by now apply all_bytes_slice.
  assert (Hlenp : 0 <= len present <= n).
  { split; [apply len_nonneg |]. unfold present, slice, len.
    rewrite length_firstn. lia. }
  pose proof (from_bytes_big_range present Hpresent) as Hr.
  assert (Hvalue : 0 <= value < 2 ^ 256).
  { unfold value.
    assert (256 ^ len present * 256 ^ (n - len present) = 256 ^ n)
      by (rewrite <- Z.pow_add_r by lia; f_equal; lia).
    assert (0 < 256 ^ (n - len present)) by (apply Z.pow_pos_nonneg; lia).
    assert (256 ^ n <= 256 ^ 32) by (apply Z.pow_le_mono_r; lia).
    change (256 ^ 32) with (2 ^ 256) in *. nia. }
  split; [exact Hvalue |].
  unfold dispatch. rewrite Hb.
  assert (E0 : (0x5F + n =? Opcode.PUSH0) = false)
    by (apply Z.eqb_neq; unfold Opcode.PUSH0; lia).
  rewrite E0.
  unfold _execute_opcode, execute_environment, execute_block_info,
    execute_stack_memory_flow. cbv zeta.
  repeat match goal with
         | |- context [0x5F + n =? ?c] =>
             let E := fresh "E" in
             let c' := eval vm_compute in c in
             assert (E : (0x5F + n =? c) = false)
               by (apply Z.eqb_neq; change c with c'; lia);
             rewrite E; clear E
         end.
  assert (Ep : (Opcode.PUSH1 <=? 0x5F + n) && (0x5F + n <=? Opcode.PUSH32) = true).
  { apply andb_true_iff. unfold Opcode.PUSH1, Opcode.PUSH32. split; apply Z.leb_le; lia. }
  rewrite Ep.
  assert (Hgs : G_VERYLOW (gas_schedule_of fork) = 3) by now destruct fork.
  rewrite Hgs. erewrite bind_inr by (apply charge_ok; lia).
  replace (0x5F + n - Opcode.PUSH1 + 1) with n by (unfold Opcode.PUSH1; lia).
  fold present.
  assert (Hpushed :
            from_bytes_big
              (if len present <? n then present ++ zeros (n - len present) else present)
            = value).
  { unfold value. destruct (len present <? n) eqn:El.
    - apply Z.ltb_lt in El.
      rewrite from_bytes_big_app, from_bytes_big_zeros, len_zeros by lia. lia.
    - apply Z.ltb_ge in El. replace (n - len present) with 0 by lia. lia. }
  rewrite Hpushed.
  erewrite bind_inr by (apply push_ok; exact Hdepth).
  unfold continue_at, ret. rewrite u256_mod_eq, Z.mod_small by exact Hvalue.
  reflexivity.
Qed.

(** ** CALLDATALOAD and BYTE *)

Lemma lor_shift_byte v b :
  0 <= v -> 0 <= b < 256 -> Z.lor (Z.shiftl v 8) b = v * 256 + b.
Proof.
  intros Hv Hb. rewrite Z.shiftl_mul_pow2 by lia. change (2 ^ 8) with 256.
  assert (Hland : Z.land (v * 256) b = 0).
  { apply Z.bits_inj'. intros k Hk. rewrite Z.land_spec, Z.bits_0.
    destruct (Z.lt_ge_cases k 8) as [Hlt | Hge].
    - change 256 with (2 ^ 8). rewrite Z.mul_pow2_bits_low by lia. reflexivity.
    - destruct (Z.eq_dec b 0) as [-> | Hb0].
      + rewrite Z.bits_0. apply andb_false_r.
      + rewrite (Z.bits_above_log2 b k); [apply andb_false_r | lia |].
        assert (Z.log2 b < 8) by (apply Z.log2_lt_pow2; lia). lia. }
  rewrite <- Z.lxor_lor by exact Hland.
  symmetry. now apply Z.add_nocarry_lxor.
Qed.

Lemma byte_at_range data i : all_bytes data -> 0 <= byte_at data i < 256.
Proof.
  intros H. unfold byte_at. generalize (Z.to_nat i). intros k. revert k.
  induction H; intros [| k]; simpl; try lia; auto.
Qed.

Lemma calldataload_fold data offset l acc :
  all_bytes data -> 0 <= acc ->
  fold_left
    (fun value i =>
       if offset + i <? len data
       then Z.lor (Z.shiftl value 8) (byte_at data (offset + i))
       else Z.shiftl value 8) l acc
  = fold_left (fun a b => a * 256 + b)
      (map (fun i => if offset + i <? len data then byte_at data (offset + i) else 0) l)
      acc.
Proof.
  intros Hd. revert acc. induction l as [| i l IH]; intros acc Hacc; simpl; [reflexivity |].
  pose proof (byte_at_range data (offset + i) Hd).
  destruct (offset + i <? len data).
  - rewrite lor_shift_byte by lia. apply IH. lia.
  - rewrite Z.shiftl_mul_pow2 by lia. change (2 ^ 8) with 256.
    rewrite Z.add_0_r. apply IH. lia.
Qed.

(** X28. CALLDATALOAD reads what CALLDATACOPY copies: the word it builds
    with shifts and ors is the big-endian value of the 32 zero-padded
    bytes the copy loop produces for the same offset. *)
Theorem calldataload_reads_padded_copy :
  forall (data : bytes) (offset : Z),
    all_bytes data -> 0 <= offset ->
    calldataload data offset = from_bytes_big (copy_padded data offset 32)
    /\ 0 <= calldataload data offset < 2 ^ 256.
Proof.
  intros data offset Hd _.
  assert (E : calldataload data offset = from_bytes_big (copy_padded data offset 32)).
  { unfold calldataload, copy_padded, from_bytes_big.
    now apply calldataload_fold. }
  split; [exact E |]. rewrite E.
  assert (Hall : all_bytes (copy_padded data offset 32)).
  { unfold copy_padded. apply Forall_map. apply Forall_forall. intros i _. simpl.
    destruct (offset + i <? len data); [now apply byte_at_range | lia]. }
  pose proof (from_bytes_big_range _ Hall) as Hr.
  replace (len (copy_padded data offset 32)) with 32 in Hr
    by (unfold copy_padded, range, len; now rewrite !length_map, length_seq).
  change (256 ^ 32) with (2 ^ 256) in Hr. exact Hr.
Qed.

Lemma nth_to_bytes_big_aux n v i :
  (i < n)%nat ->
  nth i (to_bytes_big_aux n v []) 0 = (v / 256 ^ Z.of_nat (n - 1 - i)) mod 256.
Proof.
  revert v i. induction n as [| n IH]; intros v i Hi; [lia |].
  simpl to_bytes_big_aux. rewrite to_bytes_big_aux_app.
  destruct (Nat.eq_dec i n) as [-> | Hne].
  - rewrite app_nth2 by (rewrite length_to_bytes_big_aux; lia).
    rewrite length_to_bytes_big_aux, Nat.sub_diag.
    replace (S n - 1 - n)%nat with 0%nat by lia. simpl. now rewrite Z.div_1_r.
  - rewrite app_nth1 by (rewrite length_to_bytes_big_aux; lia).
    rewrite IH by lia.
    replace (Z.of_nat (S n - 1 - i)) with (Z.of_nat (n - 1 - i) + 1) by lia.
    rewrite Z.pow_add_r by lia. change (256 ^ 1) with 256.
    rewrite (Z.mul_comm _ 256), Z.div_div by (try apply Z.pow_pos_nonneg; lia).
    reflexivity.
Qed.

(** X29. BYTE(i, x) for i below 32 is byte i of the 32-byte big-endian
    form of x, the form MSTORE writes; for i from 32 on it is 0. *)
Theorem byte_is_big_endian_byte :
  forall i x : Z,
    0 <= i -> 0 <= x ->
    byte_op i x
    = if i <? 32 then nth (Z.to_nat i) (to_bytes_big_aux 32 x []) 0 else 0.
Proof.
  intros i x Hi Hx. unfold byte_op.
  destruct (32 <=? i) eqn:E.
  - apply Z.leb_le in E. destruct (i <? 32) eqn:E'; [apply Z.ltb_lt in E'; lia | reflexivity].
  - apply Z.leb_gt in E. destruct (i <? 32) eqn:E'; [| apply Z.ltb_ge in E'; lia].
    rewrite nth_to_bytes_big_aux by lia.
    rewrite Z.shiftr_div_pow2 by lia.
    change 0xFF with (Z.ones 8). rewrite Z.land_ones by lia.
    change (2 ^ 8) with 256.
    replace (Z.of_nat (32 - 1 - Z.to_nat i)) with (31 - i) by lia.
    replace (2 ^ (8 * (31 - i))) with (256 ^ (31 - i)); [reflexivity |].
    change 256 with (2 ^ 8). rewrite <- Z.pow_mul_r by lia. reflexivity.
Qed.

(** ** Calls beyond the balance *)

Lemma read_ok {A} (f : Machine -> A) m : read f m = Some (inr (f m), m).
Proof. reflexivity. Qed.

(** X30. A CALL to an address word below 2^160 whose value exceeds the
    caller's balance is turned down without running anything: the seven
    operands are popped, the upfront cost (call cost plus memory
    expansion) is charged, 0 is pushed, and the State, the memory and the
    return data stay as they were; the nested [execute] is not used. *)
Theorem call_beyond_balance_is_rejected :
  forall (execute : Message -> M ExecutionResult) (gs : GasSchedule)
         (pc gas : Z) (message : Message) (m : Machine)
         (gas_hint addr value args_offset args_size ret_offset ret_size : Z)
         (rest : list Z),
    mc_stack m
    = gas_hint :: addr :: value :: args_offset :: args_size :: ret_offset
      :: ret_size :: rest ->
    len (mc_stack m) <= MAX_DEPTH ->
    0 <= addr < 2 ^ 160 ->
    msg_is_static message = false ->
    get_balance (mc_state m) (msg_target message) < value -> 0 < value ->
    let address := to_bytes_big_aux 20 addr [] in
    let cost :=
      call_cost gs value (account_exists (mc_state m) address)
      + Z.max (expansion_cost_of (mc_memory m) args_offset args_size)
              (expansion_cost_of (mc_memory m) ret_offset ret_size) in
    cost <= gas ->
    _handle_call execute gs pc message gas CT_CALL m
    = Some (inr {| or_pc := pc + 1; or_gas_remaining := gas - cost;
                   or_done := false; or_success := true; or_return_data := [];
                   or_error := None; or_created_address := None |},
            {| mc_stack := 0 :: rest; mc_memory := mc_memory m; mc_logs := mc_logs m;
               mc_state := mc_state m; mc_return_data := mc_return_data m |}).
Proof.
  intros execute gs pc gas message m gas_hint addr value ao asz ro rs rest
         Hst Hdepth Hrange Hstatic Hbal Hval address cost Hcost.
  assert (Haddr : to_bytes_big 20 addr = Some address).
  { unfold to_bytes_big.
    destruct (addr <? 0) eqn:E1; [apply Z.ltb_lt in E1; lia |].
    destruct (256 ^ 20 <=? addr) eqn:E2; [| reflexivity].
    apply Z.leb_le in E2. change (256 ^ 20) with (2 ^ 160) in E2. lia. }
  assert (Hrest : len rest < MAX_DEPTH).
  { rewrite Hst in Hdepth. rewrite !len_cons in Hdepth.
    pose proof (len_nonneg rest). lia. }
  destruct m as [s mem lg st rd]. simpl in *. subst s.
  set (popped := {| mc_stack := rest; mc_memory := mem; mc_logs := lg;
                    mc_state := st; mc_return_data := rd |}).
  assert (Hprep :
            call_prepare gs message gas CT_CALL
              {| mc_stack :=
                   gas_hint :: addr :: value :: ao :: asz :: ro :: rs :: rest;
                 mc_memory := mem; mc_logs := lg; mc_state := st;
                 mc_return_data := rd |}
            = Some (inr (Rejected (gas - cost)), popped)).
  { unfold call_prepare.
    do 7 (erewrite bind_inr by (apply pop_ok; reflexivity);
          cbn [mc_stack mc_memory mc_logs mc_state mc_return_data]).
    fold popped.
    erewrite bind_inr by (unfold address_of_word; rewrite Haddr; reflexivity).
    erewrite bind_inr by reflexivity.
    erewrite bind_inr by reflexivity.
    erewrite bind_inr by apply read_ok.
    cbn [mc_state mc_memory popped].
    erewrite bind_inr by (apply charge_ok; exact Hcost).
    rewrite Hstatic. cbn [andb].
    erewrite bind_inr by apply read_ok. cbn [mc_state popped is_call andb].
    apply Z.ltb_lt in Hval, Hbal. rewrite Hval, Hbal. reflexivity. }
  unfold _handle_call. rewrite (bind_inr _ _ _ _ _ Hprep). cbv beta iota.
  erewrite bind_inr by (apply push_ok; exact Hrest).
  reflexivity.
Qed.

(** ** The further properties at work on concrete inputs *)

Lemma signed_round_trip_witness :
  - 2 ^ 255 <= unsigned_to_signed (2 ^ 256 - 1) < 2 ^ 255
  /\ signed_to_unsigned (unsigned_to_signed (2 ^ 256 - 1)) = 2 ^ 256 - 1.
Proof.
  apply (signed_round_trip (2 ^ 256 - 1)).
  split; vm_compute; [discriminate | reflexivity].
Defined.

Lemma set_storage_frame_witness :
  get_storage (set_storage empty_state Scenario.addr_A 1 5) Scenario.addr_B 1
  = get_storage empty_state Scenario.addr_B 1
  /\ get_balance (set_storage empty_state Scenario.addr_A 1 5) Scenario.addr_B
     = get_balance empty_state Scenario.addr_B
  /\ get_code (set_storage empty_state Scenario.addr_A 1 5) Scenario.addr_B
     = get_code empty_state Scenario.addr_B
  /\ nonce (get_account (set_storage empty_state Scenario.addr_A 1 5) Scenario.addr_B)
     = nonce (get_account empty_state Scenario.addr_B).
Proof.
  apply (set_storage_frame empty_state Scenario.addr_A Scenario.addr_B 1 1 5).
  vm_compute. discriminate.
Defined.

Lemma absent_account_reads_default_witness :
  get_balance empty_state Scenario.addr_A = 0
  /\ get_code empty_state Scenario.addr_A = []
  /\ nonce (get_account empty_state Scenario.addr_A) = 0.
Proof.
  apply (absent_account_reads_default empty_state Scenario.addr_A).
  vm_compute. reflexivity.
Defined.

Lemma stack_stays_within_limit_witness : stack_ok (Example.with_stack [5]).
Proof.
  apply (stack_stays_within_limit 0 Frontier Scenario.env
           (Scenario.frame_of_A 10 [0x60; 5]) ∅ 0 10 (Example.with_stack [])
           (Example.with_stack [5])
           (inr {| or_pc := 2; or_gas_remaining := 7; or_done := false;
                   or_success := true; or_return_data := []; or_error := None;
                   or_created_address := None |})).
  - split; [vm_compute; discriminate | constructor].
  - split; vm_compute; [discriminate | reflexivity].
  - vm_compute. reflexivity.
Defined.

Lemma push_then_pop_witness :
  (push (2 ^ 256 + 5) ;; pop) (Example.with_stack [])
  = Some (inr ((2 ^ 256 + 5) mod 2 ^ 256), Example.with_stack []).
Proof.
  apply (push_then_pop (2 ^ 256 + 5) (Example.with_stack [])).
  vm_compute. reflexivity.
Defined.

Lemma swap_twice_witness :
  (swap 2 ;; swap 2) (Example.with_stack [1; 2; 3])
  = Some (inr tt, Example.with_stack [1; 2; 3]).
Proof.
  apply (swap_twice 2 (Example.with_stack [1; 2; 3])).
  - split; vm_compute; discriminate.
  - vm_compute. reflexivity.
Defined.

Lemma set_then_peek_witness :
  exists m',
    (stack_set 1 7 ;; peek 1) (Example.with_stack [1; 2; 3])
    = Some (inr (7 mod 2 ^ 256), m')
    /\ len (mc_stack m') = len (mc_stack (Example.with_stack [1; 2; 3])).
Proof.
  apply (set_then_peek 1 7 (Example.with_stack [1; 2; 3])).
  split; vm_compute; [discriminate | reflexivity].
Defined.

Lemma memory_stays_word_aligned_witness :
  keeps_memory_aligned (mem_load 0 5)
  /\ keeps_memory_aligned (load_word 0)
  /\ keeps_memory_aligned (mem_store 0 [1; 2; 3])
  /\ keeps_memory_aligned (store_word 0 7)
  /\ keeps_memory_aligned (store_byte 0 7).
Proof.
  apply (memory_stays_word_aligned 0 5 7 [1; 2; 3]).
  vm_compute. discriminate.
Defined.

Lemma mem_load_length_witness :
  exists data m',
    mem_load 3 40 (Example.with_stack []) = Some (inr data, m') /\ len data = 40.
Proof.
  apply (mem_load_length 3 40 (Example.with_stack [])).
  - vm_compute. discriminate.
  - vm_compute. discriminate.
  - vm_compute. reflexivity.
Defined.

Lemma store_word_then_load_word_witness :
  exists m',
    (store_word 7 (-1) ;; load_word 7) (Example.with_stack [])
    = Some (inr ((-1) mod 2 ^ 256), m').
Proof.
  apply (store_word_then_load_word 7 (-1) (Example.with_stack [])).
  - vm_compute. discriminate.
  - vm_compute. reflexivity.
Defined.

Lemma push_data_is_never_a_jumpdest_witness :
  1 ∉ _find_jumpdests [0x60; 0x5B; 0x5B].
Proof.
  apply (push_data_is_never_a_jumpdest [0x60; 0x5B; 0x5B] 0 1 1).
  - constructor.
  - vm_compute. reflexivity.
  - split; vm_compute; discriminate.
  - reflexivity.
  - split; vm_compute; [reflexivity | discriminate].
Defined.

Lemma execute_accounts_for_gas_witness :
  r_gas_used Example.stopped + r_gas_remaining Example.stopped
  = msg_gas (Scenario.frame_of_A 100 [0x00])
  /\ r_created_address Example.stopped = None
  /\ (r_error Example.stopped <> None ->
      r_success Example.stopped = false /\ r_gas_remaining Example.stopped = 0
      /\ r_return_data Example.stopped = [] /\ r_logs Example.stopped = []).
Proof.
  apply (execute_accounts_for_gas 1 Frontier Scenario.env
           (Scenario.frame_of_A 100 [0x00]) (Example.with_stack [])
           (Example.with_stack []) Example.stopped).
  vm_compute. reflexivity.
Defined.

Lemma static_frame_rejects_writes_witness :
  exists reason,
    run_loop 1 Shanghai Scenario.env (Example.static_frame 100 [0x55]) ∅ 0 100
             (Example.with_stack [1; 1])
    = Some (inr {| r_success := false; r_gas_used := 100; r_gas_remaining := 0;
                   r_return_data := []; r_logs := [];
                   r_error := Some (Raised (WriteProtectionError reason));
                   r_created_address := None |}, Example.with_stack [1; 1]).
Proof.
  apply (static_frame_rejects_writes 0 Shanghai Scenario.env
           (Example.static_frame 100 [0x55]) ∅ 0 100 (Example.with_stack [1; 1])).
  - reflexivity.
  - split; vm_compute; [discriminate | reflexivity].
  - left. reflexivity.
Defined.

Lemma jump_to_invalid_destination_fails_witness :
  exists m',
    run_loop 1 Frontier Scenario.env (Scenario.frame_of_A 100 [0x56; 0x5B])
             (_find_jumpdests [0x56; 0x5B]) 0 100 (Example.with_stack [7])
    = Some (inr {| r_success := false; r_gas_used := 100; r_gas_remaining := 0;
                   r_return_data := []; r_logs := [];
                   r_error := Some (Raised (InvalidJumpError 7));
                   r_created_address := None |}, m')
    /\ mc_state m' = mc_state (Example.with_stack [7]).
Proof.
  apply (jump_to_invalid_destination_fails 0 Frontier Scenario.env
           (Scenario.frame_of_A 100 [0x56; 0x5B]) 0 100 7 [] (Example.with_stack [7])).
  - split; vm_compute; [discriminate | reflexivity].
  - reflexivity.
  - vm_compute. discriminate.
  - reflexivity.
  - right. right. vm_compute. discriminate.
Defined.

Lemma sdiv_smod_truncate_witness :
  unsigned_to_signed (sdiv (2 ^ 256 - 7) 2)
  = Z.quot (unsigned_to_signed (2 ^ 256 - 7)) (unsigned_to_signed 2)
  /\ unsigned_to_signed (smod (2 ^ 256 - 7) 2)
     = Z.rem (unsigned_to_signed (2 ^ 256 - 7)) (unsigned_to_signed 2).
Proof.
  apply (sdiv_smod_truncate (2 ^ 256 - 7) 2).
  - split; vm_compute; [discriminate | reflexivity].
  - split; vm_compute; [discriminate | reflexivity].
  - discriminate.
  - vm_compute. intros [H _]. discriminate H.
Defined.

Lemma transfer_to_account_without_code_witness :
  exists state',
    state_transition 1 Frontier Scenario.funded_state Example.transfer Scenario.env
    = Some (inr (state',
                 {| r_success := true;
                    r_gas_used :=
                      transaction_intrinsic_gas (gas_schedule_of Frontier)
                        (tx_data Example.transfer) false;
                    r_gas_remaining :=
                      tx_gas Example.transfer
                      - transaction_intrinsic_gas (gas_schedule_of Frontier)
                          (tx_data Example.transfer) false;
                    r_return_data := []; r_logs := []; r_error := None;
                    r_created_address := None |}))
    /\ get_balance state' (tx_sender Example.transfer)
       = get_balance Scenario.funded_state (tx_sender Example.transfer)
         - transaction_intrinsic_gas (gas_schedule_of Frontier)
             (tx_data Example.transfer) false * tx_gas_price Example.transfer
         - tx_value Example.transfer
    /\ get_balance state' Scenario.addr_B
       = get_balance Scenario.funded_state Scenario.addr_B + tx_value Example.transfer
    /\ get_balance state' (env_coinbase Scenario.env)
       = get_balance Scenario.funded_state (env_coinbase Scenario.env)
         + transaction_intrinsic_gas (gas_schedule_of Frontier)
             (tx_data Example.transfer) false * tx_gas_price Example.transfer
    /\ nonce (get_account state' (tx_sender Example.transfer))
       = nonce (get_account Scenario.funded_state (tx_sender Example.transfer)) + 1.
Proof.
  apply (transfer_to_account_without_code 0 Frontier Scenario.funded_state
           Example.transfer Scenario.env Scenario.addr_B).
  - reflexivity.
  - vm_compute. reflexivity.
  - vm_compute. reflexivity.
  - vm_compute. reflexivity.
  - vm_compute. discriminate.
  - vm_compute. discriminate.
  - vm_compute. discriminate.
  - vm_compute. discriminate.
Defined.

Lemma invalid_transaction_changes_nothing_witness :
  exists e,
    state_transition 0 Shanghai Scenario.funded_state Example.next_transfer Scenario.env
    = Some (inr (Scenario.funded_state,
                 {| r_success := false; r_gas_used := 0; r_gas_remaining := 0;
                    r_return_data := []; r_logs := []; r_error := Some e;
                    r_created_address := None |})).
Proof.
  apply (invalid_transaction_changes_nothing 0 Shanghai Scenario.funded_state
           Example.next_transfer Scenario.env).
  left. vm_compute. discriminate.
Defined.

Lemma apply_block_in_two_parts_witness :
  len Example.block_results = len [Example.transfer]
  /\ apply_block 1 Scenario.funded_state ([Example.transfer] ++ [Example.next_transfer])
                 Scenario.env
     = match apply_block 1 Example.block_state [Example.next_transfer] Scenario.env with
       | Some (inr (final, more)) => Some (inr (final, Example.block_results ++ more))
       | other => other
       end.
Proof.
  apply (apply_block_in_two_parts 1 Scenario.env [Example.transfer] [Example.next_transfer]
           Scenario.funded_state Example.block_state Example.block_results).
  vm_compute. reflexivity.
Defined.

Lemma push_reads_its_immediate_witness :
  0 <= from_bytes_big (slice [0x61; 0xAB] (0 + 1) (0 + 1 + 2))
       * 256 ^ (2 - len (slice [0x61; 0xAB] (0 + 1) (0 + 1 + 2))) < 2 ^ 256
  /\ dispatch (execute 0 Frontier Scenario.env) Frontier Scenario.env
              (Scenario.frame_of_A 10 [0x61; 0xAB]) ∅ 0 10 (Example.with_stack [])
     = Some (inr {| or_pc := 0 + 1 + 2; or_gas_remaining := 10 - 3;
                    or_done := false; or_success := true; or_return_data := [];
                    or_error := None; or_created_address := None |},
             {| mc_stack :=
                  from_bytes_big (slice [0x61; 0xAB] (0 + 1) (0 + 1 + 2))
                  * 256 ^ (2 - len (slice [0x61; 0xAB] (0 + 1) (0 + 1 + 2)))
                  :: mc_stack (Example.with_stack []);
                mc_memory := mc_memory (Example.with_stack []);
                mc_logs := mc_logs (Example.with_stack []);
                mc_state := mc_state (Example.with_stack []);
                mc_return_data := mc_return_data (Example.with_stack []) |}).
Proof.
  apply (push_reads_its_immediate (execute 0 Frontier Scenario.env) Frontier
           Scenario.env (Scenario.frame_of_A 10 [0x61; 0xAB]) ∅ 0 10 2
           (Example.with_stack [])).
  - repeat constructor; vm_compute; discriminate.
  - vm_compute. discriminate.
  - split; vm_compute; discriminate.
  - reflexivity.
  - vm_compute. discriminate.
  - vm_compute. reflexivity.
Defined.

Lemma calldataload_reads_padded_copy_witness :
  calldataload [1; 2; 3] 1 = from_bytes_big (copy_padded [1; 2; 3] 1 32)
  /\ 0 <= calldataload [1; 2; 3] 1 < 2 ^ 256.
Proof.
  apply (calldataload_reads_padded_copy [1; 2; 3] 1).
  - repeat constructor; vm_compute; discriminate.
  - vm_compute. discriminate.
Defined.

Lemma byte_is_big_endian_byte_witness :
  byte_op 30 0x1234
  = if 30 <? 32 then nth (Z.to_nat 30) (to_bytes_big_aux 32 0x1234 []) 0 else 0.
Proof.
  apply (byte_is_big_endian_byte 30 0x1234); vm_compute; discriminate.
Defined.

Lemma call_beyond_balance_is_rejected_witness :
  _handle_call (execute 0 Frontier Scenario.env) FrontierGasSchedule 0
               (Scenario.frame_of_A 100000 []) 100000 CT_CALL
               (Scenario.before_call 0 11 [])
  = Some (inr {| or_pc := 0 + 1;
                 or_gas_remaining :=
                   100000
                   - (call_cost FrontierGasSchedule 11
                        (account_exists (mc_state (Scenario.before_call 0 11 []))
                                        (to_bytes_big_aux 20 2 []))
                      + Z.max (expansion_cost_of
                                 (mc_memory (Scenario.before_call 0 11 [])) 0 0)
                              (expansion_cost_of
                                 (mc_memory (Scenario.before_call 0 11 [])) 0 0));
                 or_done := false; or_success := true; or_return_data := [];
                 or_error := None; or_created_address := None |},
          {| mc_stack := 0 :: [];
             mc_memory := mc_memory (Scenario.before_call 0 11 []);
             mc_logs := mc_logs (Scenario.before_call 0 11 []);
             mc_state := mc_state (Scenario.before_call 0 11 []);
             mc_return_data := mc_return_data (Scenario.before_call 0 11 []) |}).
Proof.
  apply (call_beyond_balance_is_rejected (execute 0 Frontier Scenario.env)
           FrontierGasSchedule 0 100000 (Scenario.frame_of_A 100000 [])
           (Scenario.before_call 0 11 []) 0 2 11 0 0 0 0 []).
  - reflexivity.
  - vm_compute. discriminate.
  - split; vm_compute; [discriminate | reflexivity].
  - reflexivity.
  - vm_compute. reflexivity.
  - vm_compute. reflexivity.
  - vm_compute. discriminate.
Defined.
